(** * TF-M IPC client-call dispatcher and RPC operations slot

    A shallow embedding of
      - [secure_fw/core/ipc/tfm_psa_client_call.c]
        ([tfm_psa_version], [tfm_psa_connect], [tfm_psa_call], [tfm_psa_close]);
      - [secure_fw/core/ipc/tfm_rpc.c]
        (the [tfm_rpc_psa_*] wrappers, [tfm_rpc_register_ops],
        [tfm_rpc_unregister_ops], and the two calls through the slot);
      - [secure_fw/core/ipc/tfm_multi_core.c]
        ([tfm_nspm_thread_entry], as an interaction tree).

    The dispatcher is written in a small state monad with two abnormal
    outcomes: [Panicked] for [tfm_panic()] and [Undefined] for an access
    outside one of the function's local arrays.  The service directory, the
    message factory, the event path and the memory boundary checker are
    consumed through the [Platform] interface. *)

From ITree Require Import ITree ITreeFacts Props.Leaf.
From Stdlib Require Import ZArith List Bool Lia.
Import ListNotations.
Local Open Scope Z_scope.

(* ================================================================= *)
(** ** Machine integers and PSA data *)

(** [size_t] on the 32-bit Arm targets of the firmware. *)
Definition size_t_modulus : Z := 2 ^ 32.

Definition wrap_size_t (z : Z) : Z := z mod size_t_modulus.

(** [psa_invec] and [psa_outvec]: a base address and a length. *)
Record psa_vec : Type := mk_vec { base : Z; len : Z }.

Definition psa_invec := psa_vec.
Definition psa_outvec := psa_vec.

(** [sizeof(psa_invec)] = [sizeof(psa_outvec)]: a pointer and a [size_t]. *)
Definition sizeof_psa_vec : Z := 8.

(** The null pointer, as an address. *)
Definition NULL : Z := 0.

Definition zero_vec : psa_vec := mk_vec 0 0.

Inductive psa_status_t : Type :=
| PSA_SUCCESS
| PSA_CONNECTION_BUSY.

(** Status of the SPM helpers: [IPC_SUCCESS] or one of the error codes. *)
Inductive ipc_status : Type :=
| IPC_SUCCESS
| IPC_ERROR (code : Z).

Definition is_ipc_success (st : ipc_status) : bool :=
  match st with IPC_SUCCESS => true | IPC_ERROR _ => false end.

Inductive msg_type : Type :=
| PSA_IPC_CONNECT
| PSA_IPC_CALL
| PSA_IPC_DISCONNECT.

(** The fields of the service database entry the dispatcher reads. *)
Record tfm_spm_service_db_t : Type := mk_service_db {
  service_sid : Z;
  non_secure_client : bool;
  minor_version : Z
}.

Record tfm_spm_service_t : Type := mk_service {
  service_db : tfm_spm_service_db_t
}.

(** Caller-visible memory: the 32-bit word stored at an address. *)
Definition memory : Type := Z -> Z.

Definition load_vec (m : memory) (addr : Z) : psa_vec :=
  mk_vec (m addr) (m (addr + 4)).

Fixpoint load_vecs (m : memory) (addr : Z) (n : nat) : list psa_vec :=
  match n with
  | O => []
  | S n' => load_vec m addr :: load_vecs m (addr + sizeof_psa_vec) n'
  end.

(* ================================================================= *)
(** ** The collaborators *)

(** Constants of the PSA headers and the functions of the SPM and of the
    memory checker that the dispatcher calls.  None of them is defined in
    the files embedded here, so the dispatcher is parameterised by them.
    The two look-ups and the two checks only read the SPM state; message
    creation and the event hand-off may change it.  [tfm_spm_create_msg]
    takes the arguments of the C function in their order, a null array
    pointer being [None]; it returns the message, or [None] for a null
    result. *)
Class Platform : Type := {
  PSA_MAX_IOVEC : Z;
  PSA_NULL_HANDLE : Z;
  PSA_VERSION_NONE : Z;
  spm_state : Type;
  tfm_msg_body_t : Type;
  tfm_spm_get_service_by_sid : spm_state -> Z -> option tfm_spm_service_t;
  tfm_spm_get_service_by_handle : spm_state -> Z -> option tfm_spm_service_t;
  tfm_spm_check_client_version : spm_state -> tfm_spm_service_t -> Z -> ipc_status;
  tfm_memory_check : spm_state -> Z -> Z -> Z -> ipc_status;
  tfm_spm_create_msg :
    spm_state -> tfm_spm_service_t -> Z -> msg_type -> Z ->
    option (list psa_invec) -> Z -> option (list psa_outvec) -> Z -> Z ->
    option tfm_msg_body_t * spm_state;
  tfm_spm_send_event :
    spm_state -> tfm_spm_service_t -> tfm_msg_body_t -> ipc_status * spm_state;
  (* [psa_invec invecs[PSA_MAX_IOVEC]] is an object: its size is a [size_t] *)
  PSA_MAX_IOVEC_fits :
    (0 <=? PSA_MAX_IOVEC)
    && (PSA_MAX_IOVEC * sizeof_psa_vec <? size_t_modulus) = true
}.

(** The two local arrays of [tfm_psa_call]. *)
Inductive local_array : Type := Invecs | Outvecs.

(** How a run of an entry point ends: it returns, [tfm_panic()] stops the
    caller, or it leaves the bounds of a local array. *)
Inductive outcome (A : Type) : Type :=
| Returned (a : A)
| Panicked
| Undefined.

Arguments Returned {A} a.
Arguments Panicked {A}.
Arguments Undefined {A}.

Section World.

Context {P : Platform}.

(** What the dispatcher did, in order: every boundary check with its
    verdict, every copy out of caller memory with the descriptors read,
    every message construction with its arguments and result, and every
    hand-off to the event path with its status. *)
Inductive event : Type :=
| EvMemoryCheck (buffer size ns_caller : Z) (verdict : ipc_status)
| EvMemcpy (dst : local_array) (src nbytes : Z) (copied : list psa_vec)
| EvCreateMsg (service : tfm_spm_service_t) (handle : Z) (type : msg_type)
              (ns_caller : Z)
              (invec : option (list psa_invec)) (in_len : Z)
              (outvec : option (list psa_outvec)) (out_len : Z)
              (caller_outvec : Z) (created : option tfm_msg_body_t)
| EvSendEvent (service : tfm_spm_service_t) (msg : tfm_msg_body_t)
              (status : ipc_status).

(** The state the dispatcher runs in.  [caller_mem k] is what the caller's
    memory holds at the moment of the dispatcher's [k]-th action (the caller
    may rewrite its memory between any two actions of the dispatcher). *)
Record world : Type := mk_world {
  spm : spm_state;
  trace : list event;
  caller_mem : nat -> memory
}.

Definition now (w : world) : nat := length (trace w).

Definition record_event (e : event) (w : world) : world :=
  mk_world (spm w) (trace w ++ [e]) (caller_mem w).

Definition with_spm (s : spm_state) (w : world) : world :=
  mk_world s (trace w) (caller_mem w).

(* ----------------------------------------------------------------- *)
(** *** The monad *)

Definition M (A : Type) : Type := world -> outcome A * world.

Definition ret {A} (a : A) : M A := fun w => (Returned a, w).

Definition bind {A B} (c : M A) (k : A -> M B) : M B :=
  fun w =>
    match c w with
    | (Returned a, w') => k a w'
    | (Panicked, w') => (Panicked, w')
    | (Undefined, w') => (Undefined, w')
    end.

(** [tfm_panic()] does not return. *)
Definition tfm_panic {A} : M A := fun w => (Panicked, w).

(** An access past the end of a local array. *)
Definition out_of_bounds {A} : M A := fun w => (Undefined, w).

(** [if (cond) { tfm_panic(); }] *)
Definition panic_if (cond : bool) : M unit :=
  if cond then tfm_panic else ret tt.

End World.

Declare Scope dispatch_scope.
Delimit Scope dispatch_scope with dispatch.
Notation "x <- c ;; k" := (bind c (fun x => k))
  (at level 61, c at next level, right associativity) : dispatch_scope.
Notation "c ;; k" := (bind c (fun _ => k))
  (at level 61, right associativity) : dispatch_scope.
Local Open Scope dispatch_scope.

(* ================================================================= *)
(** ** tfm_psa_client_call.c *)

Section ClientCall.

Context {P : Platform}.

(* ----------------------------------------------------------------- *)
(** *** Calls into the collaborators *)

Definition spm_get_service_by_sid (sid : Z) : M (option tfm_spm_service_t) :=
  fun w => (Returned (tfm_spm_get_service_by_sid (spm w) sid), w).

Definition spm_get_service_by_handle (handle : Z)
  : M (option tfm_spm_service_t) :=
  fun w => (Returned (tfm_spm_get_service_by_handle (spm w) handle), w).

Definition spm_check_client_version (service : tfm_spm_service_t)
    (minor_version : Z) : M ipc_status :=
  fun w =>
    (Returned (tfm_spm_check_client_version (spm w) service minor_version), w).

Definition memory_check (buffer size ns_caller : Z) : M ipc_status :=
  fun w =>
    let st := tfm_memory_check (spm w) buffer size ns_caller in
    (Returned st, record_event (EvMemoryCheck buffer size ns_caller st) w).

Definition spm_create_msg (service : tfm_spm_service_t) (handle : Z)
    (type : msg_type) (ns_caller : Z)
    (invec : option (list psa_invec)) (in_len : Z)
    (outvec : option (list psa_outvec)) (out_len : Z)
    (caller_outvec : Z) : M (option tfm_msg_body_t) :=
  fun w =>
    let '(msg, s') :=
      tfm_spm_create_msg (spm w) service handle type ns_caller
                         invec in_len outvec out_len caller_outvec in
    (Returned msg,
     record_event (EvCreateMsg service handle type ns_caller
                               invec in_len outvec out_len caller_outvec msg)
                  (with_spm s' w)).

Definition spm_send_event (service : tfm_spm_service_t)
    (msg : tfm_msg_body_t) : M ipc_status :=
  fun w =>
    let '(st, s') := tfm_spm_send_event (spm w) service msg in
    (Returned st, record_event (EvSendEvent service msg st) (with_spm s' w)).

(** [tfm_memset(arr, 0, sizeof(arr))] on a local array of [PSA_MAX_IOVEC]
    descriptors. *)
Definition zeroed_vecs : list psa_vec :=
  repeat zero_vec (Z.to_nat PSA_MAX_IOVEC).

(** [tfm_memcpy(arr, src, nbytes)] into the local array [arr]: the
    descriptors are read from the caller's memory as it is at this moment.
    Writing more bytes than the array holds runs past its end.  [nbytes] is
    a multiple of [sizeof_psa_vec] at both call sites. *)
Definition tfm_memcpy (dst : local_array) (arr : list psa_vec)
    (src nbytes : Z) : M (list psa_vec) :=
  fun w =>
    if nbytes >? sizeof_psa_vec * Z.of_nat (length arr) then (Undefined, w)
    else
      let copied :=
        load_vecs (caller_mem w (now w)) src
                  (Z.to_nat (nbytes / sizeof_psa_vec)) in
      (Returned (copied ++ skipn (length copied) arr),
       record_event (EvMemcpy dst src nbytes copied) w).

(** [for (i = start; i < n; i++) { if (tfm_memory_check(arr[i].base,
    arr[i].len, ns_caller) != IPC_SUCCESS) tfm_panic(); }] where [rest] is
    the part of the local array from index [i] on.  Reading [arr[i]] once
    the array is exhausted is outside the array. *)
Fixpoint check_vecs (rest : list psa_vec) (i n ns_caller : Z) : M unit :=
  match rest with
  | [] => if i <? n then out_of_bounds else ret tt
  | v :: rest' =>
      if i <? n then
        st <- memory_check (base v) (len v) ns_caller ;;
        panic_if (negb (is_ipc_success st)) ;;
        check_vecs rest' (i + 1) n ns_caller
      else ret tt
  end.

(** [ns_caller && !service->service_db->non_secure_client] *)
Definition not_authorized (ns_caller : Z) (service : tfm_spm_service_t)
  : bool :=
  negb (ns_caller =? 0) && negb (non_secure_client (service_db service)).

(* ----------------------------------------------------------------- *)
(** *** The four entry points *)

Definition tfm_psa_version (sid ns_caller : Z) : M Z :=
  service <- spm_get_service_by_sid sid ;;
  match service with
  | None => ret PSA_VERSION_NONE
  | Some service =>
      if not_authorized ns_caller service then ret PSA_VERSION_NONE
      else ret (minor_version (service_db service))
  end.

Definition tfm_psa_connect (sid minor_version ns_caller : Z)
  : M psa_status_t :=
  service <- spm_get_service_by_sid sid ;;
  service <- match service with
             | None => tfm_panic
             | Some service => ret service
             end ;;
  panic_if (not_authorized ns_caller service) ;;
  st <- spm_check_client_version service minor_version ;;
  panic_if (negb (is_ipc_success st)) ;;
  msg <- spm_create_msg service PSA_NULL_HANDLE PSA_IPC_CONNECT ns_caller
                        None 0 None 0 NULL ;;
  match msg with
  | None => ret PSA_CONNECTION_BUSY
  | Some msg =>
      spm_send_event service msg ;;
      ret PSA_SUCCESS
  end.

Definition tfm_psa_call (handle in_vec in_len out_vec out_len ns_caller : Z)
  : M psa_status_t :=
  panic_if (wrap_size_t (in_len + out_len) >? PSA_MAX_IOVEC) ;;
  service <- spm_get_service_by_handle handle ;;
  service <- match service with
             | None => tfm_panic
             | Some service => ret service
             end ;;
  st <- memory_check in_vec (wrap_size_t (in_len * sizeof_psa_vec))
                     ns_caller ;;
  panic_if (negb (is_ipc_success st)) ;;
  st <- memory_check out_vec (wrap_size_t (out_len * sizeof_psa_vec))
                     ns_caller ;;
  panic_if (negb (is_ipc_success st)) ;;
  invecs <- tfm_memcpy Invecs zeroed_vecs in_vec
                       (wrap_size_t (in_len * sizeof_psa_vec)) ;;
  outvecs <- tfm_memcpy Outvecs zeroed_vecs out_vec
                        (wrap_size_t (out_len * sizeof_psa_vec)) ;;
  check_vecs invecs 0 in_len ns_caller ;;
  check_vecs outvecs 0 out_len ns_caller ;;
  msg <- spm_create_msg service handle PSA_IPC_CALL ns_caller
                        (Some invecs) in_len (Some outvecs) out_len out_vec ;;
  msg <- match msg with
         | None => tfm_panic
         | Some msg => ret msg
         end ;;
  st <- spm_send_event service msg ;;
  panic_if (negb (is_ipc_success st)) ;;
  ret PSA_SUCCESS.

Definition tfm_psa_close (handle ns_caller : Z) : M unit :=
  if handle =? PSA_NULL_HANDLE then ret tt
  else
    service <- spm_get_service_by_handle handle ;;
    service <- match service with
               | None => tfm_panic
               | Some service => ret service
               end ;;
    msg <- spm_create_msg service handle PSA_IPC_DISCONNECT ns_caller
                          None 0 None 0 NULL ;;
    match msg with
    | None => ret tt
    | Some msg =>
        spm_send_event service msg ;;
        ret tt
    end.

End ClientCall.

(* ================================================================= *)
(** ** Observing a run *)

Section Observations.

Context {P : Platform}.

(** What a run leaves behind for everyone but the caller's own memory: how
    it ended, the SPM state, and what the dispatcher did. *)
Definition observable {A} (r : outcome A * world)
  : outcome A * spm_state * list event :=
  (fst r, spm (snd r), trace (snd r)).

(** The same world with another history of the caller's memory. *)
Definition set_mem (m : nat -> memory) (w : world) : world :=
  mk_world (spm w) (trace w) m.

(** [c] started in [w] runs the same way when the caller's memory follows
    the history [m] instead. *)
Definition same_run {A} (m : nat -> memory) (w : world) (c : M A) : Prop :=
  c (set_mem m w) = (fst (c w), set_mem m (snd (c w))).

(** A computation that never reads the caller's memory. *)
Definition memory_blind {A} (c : M A) : Prop :=
  forall m w, same_run m w c.

(** Every descriptor of [vs] names a range the boundary checker accepts. *)
Definition vecs_legal (s : spm_state) (ns_caller : Z) (vs : list psa_vec)
  : bool :=
  forallb (fun v =>
             is_ipc_success (tfm_memory_check s (base v) (len v) ns_caller))
          vs.

(** One boundary check per descriptor of [vs], in order. *)
Definition check_events (s : spm_state) (ns_caller : Z) (vs : list psa_vec)
  : list event :=
  map (fun v =>
         EvMemoryCheck (base v) (len v) ns_caller
                       (tfm_memory_check s (base v) (len v) ns_caller))
      vs.

(** The [n] descriptors at [src] in the caller's memory as it is [k]
    actions after [w]. *)
Definition snapshot (w : world) (k : nat) (src n : Z) : list psa_vec :=
  load_vecs (caller_mem w (now w + k)%nat) src (Z.to_nat n).

(** A zeroed local array with [vs] copied over its first elements. *)
Definition local_copy (vs : list psa_vec) : list psa_vec :=
  vs ++ skipn (length vs) zeroed_vecs.

(** What [tfm_psa_call] does before it constructs the message, when every
    check passes: the two array checks, the two copies, and one check per
    copied descriptor. *)
Definition call_prefix (w : world) (in_vec in_len out_vec out_len ns_caller : Z)
  : list event :=
  [EvMemoryCheck in_vec (in_len * sizeof_psa_vec) ns_caller IPC_SUCCESS;
   EvMemoryCheck out_vec (out_len * sizeof_psa_vec) ns_caller IPC_SUCCESS;
   EvMemcpy Invecs in_vec (in_len * sizeof_psa_vec)
            (snapshot w 2 in_vec in_len);
   EvMemcpy Outvecs out_vec (out_len * sizeof_psa_vec)
            (snapshot w 3 out_vec out_len)]
  ++ check_events (spm w) ns_caller (snapshot w 2 in_vec in_len)
  ++ check_events (spm w) ns_caller (snapshot w 3 out_vec out_len).

End Observations.

(* ================================================================= *)
(** ** tfm_rpc.c *)

(** The parameter block of an out-of-band request. *)
Record client_call_params_t : Type := mk_params {
  sid : Z;
  handle : Z;
  type : Z;
  in_vec : Z;
  in_len : Z;
  out_vec : Z;
  out_len : Z;
  version : Z
}.

Section RpcWrappers.

Context {P : Platform}.

(** The privilege-mode constant the call wrapper passes; its value is not
    defined in the files embedded here. *)
Variable TFM_PARTITION_UNPRIVILEGED_MODE : Z.

(** The wrappers assert [params != NULL] and then read the block; they are
    embedded on the block a non-null [params] points to.  [ns_caller] is a
    [bool] here and an [int32_t] in the entry points. *)
Definition tfm_rpc_psa_version (params : client_call_params_t)
    (ns_caller : bool) : M Z :=
  tfm_psa_version (sid params) (Z.b2z ns_caller).

Definition tfm_rpc_psa_connect (params : client_call_params_t)
    (ns_caller : bool) : M psa_status_t :=
  tfm_psa_connect (sid params) (version params) (Z.b2z ns_caller).

Definition tfm_rpc_psa_close (params : client_call_params_t)
    (ns_caller : bool) : M unit :=
  tfm_psa_close (handle params) (Z.b2z ns_caller).

(** The arguments [tfm_rpc_psa_call] writes in its call of [tfm_psa_call],
    in the order written. *)
Definition tfm_rpc_psa_call_arguments (params : client_call_params_t)
    (ns_caller : bool) : list Z :=
  [handle params; type params; in_vec params; in_len params;
   out_vec params; out_len params; Z.b2z ns_caller;
   TFM_PARTITION_UNPRIVILEGED_MODE].

(** A call of [tfm_psa_call] as defined in tfm_psa_client_call.c: it has
    six parameters, and a call supplying another number of arguments is
    not a call of it. *)
Definition call_tfm_psa_call (arguments : list Z)
  : option (M psa_status_t) :=
  match arguments with
  | [a_handle; a_in_vec; a_in_len; a_out_vec; a_out_len; a_ns_caller] =>
      Some (tfm_psa_call a_handle a_in_vec a_in_len a_out_vec a_out_len
                         a_ns_caller)
  | _ => None
  end.

Definition tfm_rpc_psa_call (params : client_call_params_t)
    (ns_caller : bool) : option (M psa_status_t) :=
  call_tfm_psa_call (tfm_rpc_psa_call_arguments params ns_caller).

End RpcWrappers.

(* ----------------------------------------------------------------- *)
(** *** The operations slot *)

(** A request handler: the static default or a handler of a transport. *)
Inductive handle_req_fn : Type :=
| default_handle_req
| transport_handle_req (id : Z).

(** A reply handler: the static default or a handler of a transport. *)
Inductive reply_fn : Type :=
| default_mailbox_reply
| transport_reply (id : Z).

(** [struct tfm_rpc_ops_t]: two function pointers, [None] for a null one. *)
Record tfm_rpc_ops_t : Type := mk_ops {
  handle_req : option handle_req_fn;
  reply : option reply_fn
}.

Inductive tfm_rpc_status : Type :=
| TFM_RPC_SUCCESS
| TFM_RPC_INVAL_PARAM
| TFM_RPC_CONFLICT_CALLBACK.

Definition handle_req_eqb (f g : option handle_req_fn) : bool :=
  match f, g with
  | None, None => true
  | Some default_handle_req, Some default_handle_req => true
  | Some (transport_handle_req a), Some (transport_handle_req b) => a =? b
  | _, _ => false
  end.

Definition reply_eqb (f g : option reply_fn) : bool :=
  match f, g with
  | None, None => true
  | Some default_mailbox_reply, Some default_mailbox_reply => true
  | Some (transport_reply a), Some (transport_reply b) => a =? b
  | _, _ => false
  end.

Definition is_null {A} (p : option A) : bool :=
  match p with None => true | Some _ => false end.

(** The initial value of the static [rpc_ops]. *)
Definition default_rpc_ops : tfm_rpc_ops_t :=
  mk_ops (Some default_handle_req) (Some default_mailbox_reply).

(** [rpc_ops] is the slot before the call; the result carries the slot
    after it. *)
Definition tfm_rpc_register_ops (ops_ptr : option tfm_rpc_ops_t)
    (rpc_ops : tfm_rpc_ops_t) : tfm_rpc_status * tfm_rpc_ops_t :=
  match ops_ptr with
  | None => (TFM_RPC_INVAL_PARAM, rpc_ops)
  | Some ops =>
      if is_null (handle_req ops) || is_null (reply ops) then
        (TFM_RPC_INVAL_PARAM, rpc_ops)
      else if negb (handle_req_eqb (handle_req rpc_ops)
                                   (Some default_handle_req))
              || negb (reply_eqb (reply rpc_ops)
                                 (Some default_mailbox_reply)) then
        (TFM_RPC_CONFLICT_CALLBACK, rpc_ops)
      else
        (TFM_RPC_SUCCESS, mk_ops (handle_req ops) (reply ops))
  end.

Definition tfm_rpc_unregister_ops (rpc_ops : tfm_rpc_ops_t) : tfm_rpc_ops_t :=
  mk_ops (Some default_handle_req) (Some default_mailbox_reply).

(** A sequence of requests to the slot, and the registrations it leaves
    active: the non-default pairs installed since the last unregister. *)
Inductive slot_request : Type :=
| RequestRegister (ops_ptr : option tfm_rpc_ops_t)
| RequestUnregister.

Record slot_state : Type := mk_slot {
  slot_ops : tfm_rpc_ops_t;
  active_registrations : list tfm_rpc_ops_t
}.

Definition ops_eqb (a b : tfm_rpc_ops_t) : bool :=
  handle_req_eqb (handle_req a) (handle_req b)
  && reply_eqb (reply a) (reply b).

Definition slot_step (s : slot_state) (r : slot_request) : slot_state :=
  match r with
  | RequestRegister ops_ptr =>
      match tfm_rpc_register_ops ops_ptr (slot_ops s) with
      | (TFM_RPC_SUCCESS, ops') =>
          mk_slot ops'
                  (if ops_eqb ops' default_rpc_ops then active_registrations s
                   else ops' :: active_registrations s)
      | (_, ops') => mk_slot ops' (active_registrations s)
      end
  | RequestUnregister => mk_slot (tfm_rpc_unregister_ops (slot_ops s)) []
  end.

Definition slot_run (rs : list slot_request) (s : slot_state) : slot_state :=
  fold_left slot_step rs s.

Definition initial_slot : slot_state := mk_slot default_rpc_ops [].

(** A slot is either default with no active registration, or bound to the
    one active registration. *)
Definition slot_consistent (s : slot_state) : Prop :=
  (slot_ops s = default_rpc_ops /\ active_registrations s = [])
  \/ (slot_ops s <> default_rpc_ops
      /\ active_registrations s = [slot_ops s]).

(** Two transports, each with its pair of handlers. *)
Definition mailbox_ops : tfm_rpc_ops_t :=
  mk_ops (Some (transport_handle_req 1)) (Some (transport_reply 2)).

Definition other_ops : tfm_rpc_ops_t :=
  mk_ops (Some (transport_handle_req 3)) (Some (transport_reply 4)).

(* ================================================================= *)
(** ** A concrete platform

    A small service directory, handle table, message pool and event queue
    on which the entry points can be run: PSA_MAX_IOVEC is 4, the null
    handle and the version sentinel are 0, a non-secure caller may only
    name buffers inside one RAM window, and the compatibility check accepts
    a requested minor version up to the one the service implements. *)

Record demo_msg : Type := mk_demo_msg {
  msg_sid : Z;
  msg_handle : Z;
  msg_type_of : msg_type;
  msg_ns_caller : Z;
  msg_invec : option (list psa_invec);
  msg_in_len : Z;
  msg_outvec : option (list psa_outvec);
  msg_out_len : Z;
  msg_caller_outvec : Z
}.

Record demo_spm : Type := mk_demo_spm {
  services : list tfm_spm_service_t;
  connections : list (Z * Z);
  free_msgs : nat;
  queue : list demo_msg;
  event_path_up : bool
}.

Definition demo_get_service_by_sid (s : demo_spm) (sid : Z)
  : option tfm_spm_service_t :=
  find (fun svc => service_sid (service_db svc) =? sid) (services s).

Definition demo_get_service_by_handle (s : demo_spm) (handle : Z)
  : option tfm_spm_service_t :=
  match find (fun c => fst c =? handle) (connections s) with
  | Some (_, sid) => demo_get_service_by_sid s sid
  | None => None
  end.

Definition demo_check_client_version (s : demo_spm)
    (service : tfm_spm_service_t) (minor : Z) : ipc_status :=
  if minor <=? minor_version (service_db service) then IPC_SUCCESS
  else IPC_ERROR 1.

Definition ns_ram_base : Z := 0x20000000.
Definition ns_ram_limit : Z := 0x20040000.

Definition demo_memory_check (s : demo_spm) (buffer size ns_caller : Z)
  : ipc_status :=
  if size =? 0 then IPC_SUCCESS
  else if ns_caller =? 0 then
    if buffer + size <=? size_t_modulus then IPC_SUCCESS else IPC_ERROR 2
  else if (ns_ram_base <=? buffer) && (buffer + size <=? ns_ram_limit) then
    IPC_SUCCESS
  else IPC_ERROR 2.

Definition demo_create_msg (s : demo_spm) (service : tfm_spm_service_t)
    (handle : Z) (type : msg_type) (ns_caller : Z)
    (invec : option (list psa_invec)) (in_len : Z)
    (outvec : option (list psa_outvec)) (out_len : Z) (caller_outvec : Z)
  : option demo_msg * demo_spm :=
  match free_msgs s with
  | O => (None, s)
  | S n =>
      (Some (mk_demo_msg (service_sid (service_db service)) handle type
                         ns_caller invec in_len outvec out_len caller_outvec),
       mk_demo_spm (services s) (connections s) n (queue s) (event_path_up s))
  end.

Definition demo_send_event (s : demo_spm) (service : tfm_spm_service_t)
    (msg : demo_msg) : ipc_status * demo_spm :=
  if event_path_up s then
    (IPC_SUCCESS,
     mk_demo_spm (services s) (connections s) (free_msgs s)
                 (queue s ++ [msg]) true)
  else (IPC_ERROR 3, s).

#[local] Instance demo_platform : Platform := {|
  PSA_MAX_IOVEC := 4;
  PSA_NULL_HANDLE := 0;
  PSA_VERSION_NONE := 0;
  spm_state := demo_spm;
  tfm_msg_body_t := demo_msg;
  tfm_spm_get_service_by_sid := demo_get_service_by_sid;
  tfm_spm_get_service_by_handle := demo_get_service_by_handle;
  tfm_spm_check_client_version := demo_check_client_version;
  tfm_memory_check := demo_memory_check;
  tfm_spm_create_msg := demo_create_msg;
  tfm_spm_send_event := demo_send_event;
  PSA_MAX_IOVEC_fits := eq_refl
|}.

(** Service S1: identifier 7, minor version 2, open to non-secure callers;
    service S2: identifier 9, minor version 1, secure callers only. *)
Definition S1 : tfm_spm_service_t := mk_service (mk_service_db 7 true 2).
Definition S2 : tfm_spm_service_t := mk_service (mk_service_db 9 false 1).

(** Handle 5 names a live connection to S1. *)
Definition demo_spm0 : demo_spm := mk_demo_spm [S1; S2] [(5, 7)] 2 [] true.

(** The same directory with an exhausted message pool, and with an event
    path that refuses every hand-off. *)
Definition demo_spm_exhausted : demo_spm :=
  mk_demo_spm [S1; S2] [(5, 7)] 0 [] true.
Definition demo_spm_event_down : demo_spm :=
  mk_demo_spm [S1; S2] [(5, 7)] 2 [] false.

(** Caller memory holding one input descriptor at [0x20000000] (a 16-byte
    buffer at [0x20000100]) and one output descriptor at [0x20000040] (a
    32-byte buffer at [0x20000200]). *)
Definition demo_memory : memory :=
  fun addr =>
    if addr =? 0x20000000 then 0x20000100
    else if addr =? 0x20000004 then 16
    else if addr =? 0x20000040 then 0x20000200
    else if addr =? 0x20000044 then 32
    else 0.

(** The caller overwrites both descriptors, to point into secure memory,
    once the dispatcher has performed [k] actions. *)
Definition hostile_memory : memory :=
  fun addr =>
    if addr =? 0x20000000 then 0x10000000
    else if addr =? 0x20000004 then 4096
    else if addr =? 0x20000040 then 0x10000000
    else if addr =? 0x20000044 then 4096
    else 0.

Definition rewritten_after (k : nat) : nat -> memory :=
  fun t => if (t <=? k)%nat then demo_memory else hostile_memory.

Definition demo_world (s : demo_spm) (mem : nat -> memory) : world :=
  mk_world s [] mem.

(** The caller leaves its memory alone. *)
Definition steady : nat -> memory := fun _ => demo_memory.

(* ================================================================= *)
(** ** Calling through the operations slot *)

Section RpcDispatch.

(** The state the handlers of a transport act on, and what the handlers
    numbered [id] do to it.  The two static defaults have empty bodies. *)
Variable transport : Type.
Variable run_handle_req : Z -> transport -> transport.
Variable run_reply : Z -> Z -> Z -> transport -> transport.

Definition call_handle_req (f : handle_req_fn) (t : transport) : transport :=
  match f with
  | default_handle_req => t
  | transport_handle_req id => run_handle_req id t
  end.

Definition call_reply (f : reply_fn) (owner ret : Z) (t : transport)
  : transport :=
  match f with
  | default_mailbox_reply => t
  | transport_reply id => run_reply id owner ret t
  end.

(** [rpc_ops.handle_req()]; [None] is a call through a null pointer. *)
Definition tfm_rpc_client_call_handler (rpc_ops : tfm_rpc_ops_t)
    (t : transport) : option transport :=
  match handle_req rpc_ops with
  | None => None
  | Some f => Some (call_handle_req f t)
  end.

(** [rpc_ops.reply(owner, ret)]; [None] is a call through a null pointer. *)
Definition tfm_rpc_client_call_reply (rpc_ops : tfm_rpc_ops_t)
    (owner ret : Z) (t : transport) : option transport :=
  match reply rpc_ops with
  | None => None
  | Some f => Some (call_reply f owner ret t)
  end.

End RpcDispatch.

(** Both function pointers of the pair are non-null. *)
Definition handlers_present (ops : tfm_rpc_ops_t) : Prop :=
  handle_req ops <> None /\ reply ops <> None.

(** A sequence of requests none of which is an unregister. *)
Definition only_registers (rs : list slot_request) : bool :=
  forallb (fun r => match r with
                    | RequestRegister _ => true
                    | RequestUnregister => false
                    end) rs.

(** A transport whose state counts the requests and replies it handled. *)
Definition count_request (id : Z) (t : Z * Z) : Z * Z := (fst t + id, snd t).
Definition count_reply (id owner ret : Z) (t : Z * Z) : Z * Z :=
  (fst t, snd t + ret).

(* ================================================================= *)
(** ** Stages of tfm_psa_call *)

Section CallStages.

Context {P : Platform}.

(** The world after the two copies. *)
Definition after_copies (w : world)
    (in_vec in_len out_vec out_len ns_caller : Z) : world :=
  mk_world (spm w)
           (trace w
            ++ [EvMemoryCheck in_vec (in_len * sizeof_psa_vec) ns_caller
                              IPC_SUCCESS;
                EvMemoryCheck out_vec (out_len * sizeof_psa_vec) ns_caller
                              IPC_SUCCESS;
                EvMemcpy Invecs in_vec (in_len * sizeof_psa_vec)
                         (snapshot w 2 in_vec in_len);
                EvMemcpy Outvecs out_vec (out_len * sizeof_psa_vec)
                         (snapshot w 3 out_vec out_len)])
           (caller_mem w).

(** A boundary check that passed, or a copy. *)
Definition passed (e : event) : Prop :=
  match e with
  | EvMemoryCheck _ _ _ verdict => verdict = IPC_SUCCESS
  | EvMemcpy _ _ _ _ => True
  | _ => False
  end.

(** The descriptors a check loop over [vs] checks: each one up to and
    including the first the boundary checker refuses. *)
Fixpoint checked_until_refused (s : spm_state) (ns_caller : Z)
    (vs : list psa_vec) : list psa_vec :=
  match vs with
  | [] => []
  | v :: vs' =>
      v :: (if is_ipc_success
                 (tfm_memory_check s (base v) (len v) ns_caller)
            then checked_until_refused s ns_caller vs'
            else [])
  end.

(** What a copy of [count] descriptors reads, [k] actions after [w]: as
    many descriptors as the byte count computed in [size_t] holds. *)
Definition copied_from (w : world) (k : nat) (src count : Z)
  : list psa_vec :=
  load_vecs (caller_mem w (now w + k)%nat) src
            (Z.to_nat (wrap_size_t (count * sizeof_psa_vec)
                       / sizeof_psa_vec)).

End CallStages.

(* ================================================================= *)
(** ** tfm_multi_core.c *)

Definition DEFAULT_NS_CLIENT_ID : Z := -1.

Definition tfm_nspm_get_current_client_id : Z := DEFAULT_NS_CLIENT_ID.

(** The platform and mailbox functions the thread entry calls, with the
    type of what each returns. *)
Variant halE : Type -> Type :=
| tfm_spm_hal_get_ns_VTOR : halE Z
| tfm_spm_hal_boot_ns_cpu (start_addr : Z) : halE unit
| tfm_spm_hal_wait_for_ns_cpu_ready : halE unit
| tfm_mailbox_init : halE Z.

(** [while (1) {}] *)
Definition park : itree halE unit :=
  ITree.iter (fun _ : unit => Ret (inl tt)) tt.

(** The thread entry as built without TFM_CORE_DEBUG. *)
Definition tfm_nspm_thread_entry : itree halE psa_status_t :=
  ITree.bind (ITree.trigger tfm_spm_hal_get_ns_VTOR) (fun vtor =>
  ITree.bind (ITree.trigger (tfm_spm_hal_boot_ns_cpu vtor)) (fun _ =>
  ITree.bind (ITree.trigger tfm_spm_hal_wait_for_ns_cpu_ready) (fun _ =>
  ITree.bind (ITree.trigger tfm_mailbox_init) (fun _ =>
  ITree.bind park (fun _ =>
  Ret PSA_SUCCESS))))).

(* ================================================================= *)
(** ** More runs on the concrete platform *)

(** The caller keeps rewriting its 16-byte input buffer and leaves its
    descriptors alone. *)
Definition buffers_rewritten : nat -> memory :=
  fun t addr =>
    if addr =? 0x20000100 then Z.of_nat t else demo_memory addr.

(** The caller overwrites its input descriptor, to point into secure
    memory, as soon as the dispatcher has copied it, and later its output
    descriptor too. *)
Definition input_hostile_memory : memory :=
  fun addr =>
    if addr =? 0x20000000 then 0x10000000
    else if addr =? 0x20000004 then 4096
    else demo_memory addr.

Definition rewritten_behind_the_copies : nat -> memory :=
  fun t =>
    if (t <=? 2)%nat then demo_memory
    else if (t <=? 3)%nat then input_hostile_memory
    else hostile_memory.

(** The descriptor the hostile caller writes over its own. *)
Definition hostile_vec : psa_vec := mk_vec 0x10000000 4096.

Definition demo_world0 : world := demo_world demo_spm0 steady.

(* ================================================================= *)
(** ** Stepping through a run *)

Section Steps.

Context {P : Platform}.

Lemma bind_returned {A B} (c : M A) (k : A -> M B) w a w' :
  c w = (Returned a, w') -> bind c k w = k a w'.
Proof. unfold bind. intros ->. reflexivity. Qed.

Lemma bind_panicked {A B} (c : M A) (k : A -> M B) w w' :
  c w = (Panicked, w') -> bind c k w = (Panicked, w').
Proof. unfold bind. intros ->. reflexivity. Qed.

Lemma panic_if_returned b (u : unit) (w w' : world) :
  panic_if b w = (Returned u, w') -> b = false /\ w' = w.
Proof.
  destruct b; cbv; intros E; [discriminate |].
  split; congruence.
Qed.

Lemma now_record_event e w : now (record_event e w) = S (now w).
Proof.
  unfold now, record_event. cbn. rewrite length_app. cbn. lia.
Qed.

Lemma not_authorized_false ns_caller service :
  ns_caller = 0 \/ non_secure_client (service_db service) = true ->
  not_authorized ns_caller service = false.
Proof.
  unfold not_authorized. intros [-> | ->].
  - reflexivity.
  - cbn. apply andb_false_r.
Qed.

Lemma max_iovec_fits :
  0 <= PSA_MAX_IOVEC /\ PSA_MAX_IOVEC * sizeof_psa_vec < size_t_modulus.
Proof.
  pose proof PSA_MAX_IOVEC_fits as H.
  apply andb_true_iff in H as [H0 H1].
  apply Z.leb_le in H0. apply Z.ltb_lt in H1. split; assumption.
Qed.

Lemma gtb_false a b : a <= b -> (a >? b) = false.
Proof. intros H. rewrite Z.gtb_ltb. apply Z.ltb_ge. exact H. Qed.

Lemma gtb_true a b : a > b -> (a >? b) = true.
Proof. intros H. rewrite Z.gtb_ltb. apply Z.ltb_lt. lia. Qed.

Lemma wrap_size_t_small z : 0 <= z < size_t_modulus -> wrap_size_t z = z.
Proof. intros H. unfold wrap_size_t. apply Z.mod_small. exact H. Qed.

Lemma load_vecs_length m n : forall addr, length (load_vecs m addr n) = n.
Proof.
  induction n as [| n IH]; intros addr; cbn; [| rewrite IH]; reflexivity.
Qed.

End Steps.

(* ================================================================= *)
(** ** query, connect and close *)

Section EntryPoints.

Context {P : Platform}.

(** C5. [tfm_psa_version] always returns, leaves the state as it found it,
    and its value is the sentinel [PSA_VERSION_NONE] when the identifier
    does not resolve or when a non-secure caller asks for a service closed
    to non-secure clients, and the minor version of the service otherwise. *)
Theorem tfm_psa_version_total (sid ns_caller : Z) (w : world) :
  tfm_psa_version sid ns_caller w =
  (Returned
     match tfm_spm_get_service_by_sid (spm w) sid with
     | None => PSA_VERSION_NONE
     | Some service =>
         if negb (ns_caller =? 0)
            && negb (non_secure_client (service_db service))
         then PSA_VERSION_NONE
         else minor_version (service_db service)
     end,
   w).
Proof.
  unfold tfm_psa_version.
  rewrite (bind_returned (spm_get_service_by_sid sid) _ w _ w eq_refl).
  destruct (tfm_spm_get_service_by_sid (spm w) sid) as [service |];
    [| reflexivity].
  unfold not_authorized.
  destruct (negb (ns_caller =? 0)
            && negb (non_secure_client (service_db service)));
    reflexivity.
Qed.

(** Past its three fatal checks, [tfm_psa_connect] is the construction of
    the connect message followed, when there is a message, by the
    hand-off. *)
Lemma tfm_psa_connect_run
    (sid minor ns_caller : Z) (w : world) (service : tfm_spm_service_t) :
  tfm_spm_get_service_by_sid (spm w) sid = Some service ->
  ns_caller = 0 \/ non_secure_client (service_db service) = true ->
  tfm_spm_check_client_version (spm w) service minor = IPC_SUCCESS ->
  tfm_psa_connect sid minor ns_caller w =
  (msg <- spm_create_msg service PSA_NULL_HANDLE PSA_IPC_CONNECT ns_caller
                         None 0 None 0 NULL ;;
   match msg with
   | None => ret PSA_CONNECTION_BUSY
   | Some msg => spm_send_event service msg ;; ret PSA_SUCCESS
   end) w.
Proof.
  intros Hsid Hauth Hver. unfold tfm_psa_connect.
  rewrite (bind_returned (spm_get_service_by_sid sid) _ w (Some service) w)
    by (unfold spm_get_service_by_sid; rewrite Hsid; reflexivity).
  rewrite (bind_returned (ret service) _ w service w eq_refl).
  rewrite (not_authorized_false _ _ Hauth). cbn [panic_if].
  rewrite (bind_returned (ret tt) _ w tt w eq_refl).
  rewrite (bind_returned (spm_check_client_version service minor) _ w
             IPC_SUCCESS w)
    by (unfold spm_check_client_version; rewrite Hver; reflexivity).
  cbn [is_ipc_success negb panic_if].
  rewrite (bind_returned (ret tt) _ w tt w eq_refl).
  reflexivity.
Qed.

(** For a non-null handle that resolves, [tfm_psa_close] is the
    construction of the disconnect message followed, when there is a
    message, by the hand-off. *)
Lemma tfm_psa_close_run
    (handle ns_caller : Z) (w : world) (service : tfm_spm_service_t) :
  handle <> PSA_NULL_HANDLE ->
  tfm_spm_get_service_by_handle (spm w) handle = Some service ->
  tfm_psa_close handle ns_caller w =
  (msg <- spm_create_msg service handle PSA_IPC_DISCONNECT ns_caller
                         None 0 None 0 NULL ;;
   match msg with
   | None => ret tt
   | Some msg => spm_send_event service msg ;; ret tt
   end) w.
Proof.
  intros Hnull Hlive. unfold tfm_psa_close.
  apply Z.eqb_neq in Hnull. rewrite Hnull.
  rewrite (bind_returned (spm_get_service_by_handle handle) _ w
             (Some service) w)
    by (unfold spm_get_service_by_handle; rewrite Hlive; reflexivity).
  rewrite (bind_returned (ret service) _ w service w eq_refl).
  reflexivity.
Qed.

(** Constructing a message and handing it over when there is one: what
    the two runs above leave in the world. *)
Lemma create_then_send {A} (busy done : A) service handle ty ns_caller w :
  (msg <- spm_create_msg service handle ty ns_caller None 0 None 0 NULL ;;
   match msg with
   | None => ret busy
   | Some msg => spm_send_event service msg ;; ret done
   end) w =
  match tfm_spm_create_msg (spm w) service handle ty ns_caller
                           None 0 None 0 NULL with
  | (None, s1) =>
      (Returned busy,
       mk_world s1
                (trace w ++ [EvCreateMsg service handle ty ns_caller
                                         None 0 None 0 NULL None])
                (caller_mem w))
  | (Some msg, s1) =>
      (Returned done,
       mk_world (snd (tfm_spm_send_event s1 service msg))
                ((trace w ++ [EvCreateMsg service handle ty ns_caller
                                          None 0 None 0 NULL (Some msg)])
                 ++ [EvSendEvent service msg
                                 (fst (tfm_spm_send_event s1 service msg))])
                (caller_mem w))
  end.
Proof.
  unfold bind, spm_create_msg, spm_send_event, ret, record_event, with_spm.
  cbn [spm trace caller_mem].
  destruct (tfm_spm_create_msg (spm w) service handle ty ns_caller
              None 0 None 0 NULL) as [[msg |] s1];
    cbn [spm trace caller_mem]; [| reflexivity].
  destruct (tfm_spm_send_event s1 service msg) as [st s2]; reflexivity.
Qed.

(** C3. When the identifier resolves, the caller is authorized and the
    requested minor version passes the compatibility check,
    [tfm_psa_connect] does one of two things.  Either the message cannot be
    constructed, and it returns [PSA_CONNECTION_BUSY] with nothing handed
    to the event path; or it returns [PSA_SUCCESS] after one hand-off to
    the event path, of the message constructed with the null handle, type
    [PSA_IPC_CONNECT], the caller's trust level and no vectors.  It does
    not panic and returns no other status. *)
Theorem tfm_psa_connect_busy_or_success
    (sid minor ns_caller : Z) (w : world) (service : tfm_spm_service_t) :
  tfm_spm_get_service_by_sid (spm w) sid = Some service ->
  ns_caller = 0 \/ non_secure_client (service_db service) = true ->
  tfm_spm_check_client_version (spm w) service minor = IPC_SUCCESS ->
  let construction :=
    EvCreateMsg service PSA_NULL_HANDLE PSA_IPC_CONNECT ns_caller
                None 0 None 0 NULL in
  (exists s1,
      tfm_spm_create_msg (spm w) service PSA_NULL_HANDLE PSA_IPC_CONNECT
                         ns_caller None 0 None 0 NULL = (None, s1)
      /\ tfm_psa_connect sid minor ns_caller w =
         (Returned PSA_CONNECTION_BUSY,
          mk_world s1 (trace w ++ [construction None]) (caller_mem w)))
  \/
  (exists msg s1 st s2,
      tfm_spm_create_msg (spm w) service PSA_NULL_HANDLE PSA_IPC_CONNECT
                         ns_caller None 0 None 0 NULL = (Some msg, s1)
      /\ tfm_spm_send_event s1 service msg = (st, s2)
      /\ tfm_psa_connect sid minor ns_caller w =
         (Returned PSA_SUCCESS,
          mk_world s2
                   ((trace w ++ [construction (Some msg)])
                    ++ [EvSendEvent service msg st])
                   (caller_mem w))).
Proof.
  intros Hsid Hauth Hver construction. subst construction.
  rewrite (tfm_psa_connect_run sid minor ns_caller w service Hsid Hauth Hver).
  rewrite create_then_send.
  destruct (tfm_spm_create_msg (spm w) service PSA_NULL_HANDLE
              PSA_IPC_CONNECT ns_caller None 0 None 0 NULL)
    as [[msg |] s1].
  - right. destruct (tfm_spm_send_event s1 service msg) as [st s2] eqn:E.
    exists msg, s1, st, s2. auto.
  - left. exists s1. auto.
Qed.

(** C7. [tfm_psa_close] on the null handle returns at once, for every
    trust level: no panic, no message constructed, nothing handed to the
    event path, the state untouched. *)
Theorem tfm_psa_close_null_handle (ns_caller : Z) (w : world) :
  tfm_psa_close PSA_NULL_HANDLE ns_caller w = (Returned tt, w).
Proof.
  unfold tfm_psa_close. rewrite Z.eqb_refl. reflexivity.
Qed.

(** C8. For a non-null handle that resolves to a service, [tfm_psa_close]
    constructs a [PSA_IPC_DISCONNECT] message without vectors.  If the
    construction fails it returns to the caller, with nothing handed to
    the event path and nothing in its (void) result to tell the failure;
    if it succeeds it hands that one message to the event path and
    returns.  It does not panic in either case. *)
Theorem tfm_psa_close_live_handle
    (handle ns_caller : Z) (w : world) (service : tfm_spm_service_t) :
  handle <> PSA_NULL_HANDLE ->
  tfm_spm_get_service_by_handle (spm w) handle = Some service ->
  let construction :=
    EvCreateMsg service handle PSA_IPC_DISCONNECT ns_caller
                None 0 None 0 NULL in
  (exists s1,
      tfm_spm_create_msg (spm w) service handle PSA_IPC_DISCONNECT
                         ns_caller None 0 None 0 NULL = (None, s1)
      /\ tfm_psa_close handle ns_caller w =
         (Returned tt,
          mk_world s1 (trace w ++ [construction None]) (caller_mem w)))
  \/
  (exists msg s1 st s2,
      tfm_spm_create_msg (spm w) service handle PSA_IPC_DISCONNECT
                         ns_caller None 0 None 0 NULL = (Some msg, s1)
      /\ tfm_spm_send_event s1 service msg = (st, s2)
      /\ tfm_psa_close handle ns_caller w =
         (Returned tt,
          mk_world s2
                   ((trace w ++ [construction (Some msg)])
                    ++ [EvSendEvent service msg st])
                   (caller_mem w))).
Proof.
  intros Hnull Hlive construction. subst construction.
  rewrite (tfm_psa_close_run handle ns_caller w service Hnull Hlive).
  rewrite create_then_send.
  destruct (tfm_spm_create_msg (spm w) service handle PSA_IPC_DISCONNECT
              ns_caller None 0 None 0 NULL) as [[msg |] s1].
  - right. destruct (tfm_spm_send_event s1 service msg) as [st s2] eqn:E.
    exists msg, s1, st, s2. auto.
  - left. exists s1. auto.
Qed.

End EntryPoints.

(* ================================================================= *)
(** ** The snapshot taken by [tfm_psa_call] *)

Section Snapshot.

Context {P : Platform}.

Lemma blind_ret {A} (a : A) : memory_blind (ret a).
Proof. intros m w. reflexivity. Qed.

Lemma blind_panic {A} : memory_blind (@tfm_panic P A).
Proof. intros m w. reflexivity. Qed.

Lemma blind_out_of_bounds {A} : memory_blind (@out_of_bounds P A).
Proof. intros m w. reflexivity. Qed.

Lemma blind_panic_if b : memory_blind (panic_if b).
Proof. destruct b; [apply blind_panic | apply blind_ret]. Qed.

Lemma blind_memory_check buffer size ns_caller :
  memory_blind (memory_check buffer size ns_caller).
Proof. intros m w. reflexivity. Qed.

Lemma blind_get_service_by_handle handle :
  memory_blind (spm_get_service_by_handle handle).
Proof. intros m w. reflexivity. Qed.

Lemma blind_create_msg service handle ty ns_caller iv il ov ol cov :
  memory_blind (spm_create_msg service handle ty ns_caller iv il ov ol cov).
Proof.
  intros m w. unfold same_run, spm_create_msg. cbn.
  destruct (tfm_spm_create_msg (spm w) service handle ty ns_caller
              iv il ov ol cov); reflexivity.
Qed.

Lemma blind_send_event service msg :
  memory_blind (spm_send_event service msg).
Proof.
  intros m w. unfold same_run, spm_send_event. cbn.
  destruct (tfm_spm_send_event (spm w) service msg); reflexivity.
Qed.

Lemma same_run_bind {A B} m w (c : M A) (k : A -> M B) :
  same_run m w c ->
  (forall a w', c w = (Returned a, w') -> same_run m w' (k a)) ->
  same_run m w (bind c k).
Proof.
  unfold same_run, bind. intros Hc Hk. rewrite Hc.
  destruct (c w) as [[a | |] w'] eqn:E; cbn; try reflexivity.
  apply Hk. reflexivity.
Qed.

Lemma blind_bind {A B} (c : M A) (k : A -> M B) :
  memory_blind c -> (forall a, memory_blind (k a)) -> memory_blind (bind c k).
Proof.
  intros Hc Hk m w. apply same_run_bind; [apply Hc |].
  intros a w' _. apply Hk.
Qed.

Lemma blind_check_vecs rest : forall i n ns_caller,
  memory_blind (check_vecs rest i n ns_caller).
Proof.
  induction rest as [| v rest IH]; intros i n ns_caller; cbn [check_vecs].
  - destruct (i <? n); [apply blind_out_of_bounds | apply blind_ret].
  - destruct (i <? n); [| apply blind_ret].
    apply blind_bind; [apply blind_memory_check |]. intros st.
    apply blind_bind; [apply blind_panic_if |]. intros _. apply IH.
Qed.

(** The part of [tfm_psa_call] after the two copies: it works on the local
    arrays only. *)
Lemma blind_after_copy service handle out_vec in_len out_len ns_caller
    invecs outvecs :
  memory_blind
    (check_vecs invecs 0 in_len ns_caller ;;
     check_vecs outvecs 0 out_len ns_caller ;;
     msg <- spm_create_msg service handle PSA_IPC_CALL ns_caller
                           (Some invecs) in_len (Some outvecs) out_len
                           out_vec ;;
     msg <- match msg with
            | None => tfm_panic
            | Some msg => ret msg
            end ;;
     st <- spm_send_event service msg ;;
     panic_if (negb (is_ipc_success st)) ;;
     ret PSA_SUCCESS).
Proof.
  apply blind_bind; [apply blind_check_vecs |]. intros _.
  apply blind_bind; [apply blind_check_vecs |]. intros _.
  apply blind_bind; [apply blind_create_msg |]. intros msg.
  apply blind_bind;
    [destruct msg; [apply blind_ret | apply blind_panic] |]. intros msg'.
  apply blind_bind; [apply blind_send_event |]. intros st.
  apply blind_bind; [apply blind_panic_if |]. intros _. apply blind_ret.
Qed.

End Snapshot.

Section CallRun.

Context {P : Platform}.

Lemma count_in_range in_len out_len :
  0 <= in_len -> 0 <= out_len -> in_len + out_len <= PSA_MAX_IOVEC ->
  0 <= in_len + out_len < size_t_modulus
  /\ 0 <= in_len * sizeof_psa_vec < size_t_modulus
  /\ 0 <= out_len * sizeof_psa_vec < size_t_modulus
  /\ in_len * sizeof_psa_vec <= sizeof_psa_vec * PSA_MAX_IOVEC
  /\ out_len * sizeof_psa_vec <= sizeof_psa_vec * PSA_MAX_IOVEC.
Proof.
  pose proof max_iovec_fits as [H0 H1].
  unfold sizeof_psa_vec in *. intros. lia.
Qed.

Lemma zeroed_vecs_length : Z.of_nat (length zeroed_vecs) = PSA_MAX_IOVEC.
Proof.
  unfold zeroed_vecs. rewrite repeat_length.
  apply Z2Nat.id. apply max_iovec_fits.
Qed.

(** The check loop over a prefix of legal descriptors of exactly the
    requested length performs one boundary check per descriptor, in order,
    and returns. *)
Lemma check_vecs_legal ns_caller rest : forall vs i n w,
  n = i + Z.of_nat (length vs) ->
  vecs_legal (spm w) ns_caller vs = true ->
  check_vecs (vs ++ rest) i n ns_caller w =
  (Returned tt,
   mk_world (spm w) (trace w ++ check_events (spm w) ns_caller vs)
            (caller_mem w)).
Proof.
  induction vs as [| v vs IH]; intros i n w Hn Hlegal.
  - cbn [app check_events map]. rewrite app_nil_r.
    cbn in Hn. rewrite Z.add_0_r in Hn. subst n.
    destruct rest; cbn [check_vecs]; rewrite Z.ltb_irrefl;
      destruct w; reflexivity.
  - cbn [app check_vecs]. cbn [length] in Hn.
    replace (i <? n) with true by (symmetry; apply Z.ltb_lt; lia).
    cbn [vecs_legal forallb] in Hlegal.
    apply andb_true_iff in Hlegal as [Hv Hvs].
    rewrite (bind_returned (memory_check (base v) (len v) ns_caller)
               _ w _ _ eq_refl).
    rewrite Hv. cbn [negb panic_if].
    rewrite (bind_returned (ret tt) _ _ tt _ eq_refl).
    rewrite IH; [| cbn [spm record_event]; lia | exact Hvs].
    cbn [spm trace caller_mem record_event check_events map].
    rewrite <- app_assoc. reflexivity.
Qed.

(** The run of [tfm_psa_call] up to the message construction, when the
    counts are within the maximum, the handle is live and every boundary
    check passes: the two arrays are checked and copied, every descriptor
    of the copies is checked, and the message is constructed from the
    copies. *)
Lemma tfm_psa_call_run
    (handle in_vec in_len out_vec out_len ns_caller : Z) (w : world)
    (service : tfm_spm_service_t) :
  0 <= in_len -> 0 <= out_len -> in_len + out_len <= PSA_MAX_IOVEC ->
  tfm_spm_get_service_by_handle (spm w) handle = Some service ->
  tfm_memory_check (spm w) in_vec (in_len * sizeof_psa_vec) ns_caller
  = IPC_SUCCESS ->
  tfm_memory_check (spm w) out_vec (out_len * sizeof_psa_vec) ns_caller
  = IPC_SUCCESS ->
  vecs_legal (spm w) ns_caller (snapshot w 2 in_vec in_len) = true ->
  vecs_legal (spm w) ns_caller (snapshot w 3 out_vec out_len) = true ->
  tfm_psa_call handle in_vec in_len out_vec out_len ns_caller w =
  (msg <- spm_create_msg service handle PSA_IPC_CALL ns_caller
                         (Some (local_copy (snapshot w 2 in_vec in_len)))
                         in_len
                         (Some (local_copy (snapshot w 3 out_vec out_len)))
                         out_len out_vec ;;
   msg <- match msg with
          | None => tfm_panic
          | Some msg => ret msg
          end ;;
   st <- spm_send_event service msg ;;
   panic_if (negb (is_ipc_success st)) ;;
   ret PSA_SUCCESS)
    (mk_world (spm w)
              (trace w
               ++ call_prefix w in_vec in_len out_vec out_len ns_caller)
              (caller_mem w)).
Proof.
  intros Hin Hout Hcount Hlive Hcheck_in Hcheck_out Hlegal_in Hlegal_out.
  destruct (count_in_range in_len out_len Hin Hout Hcount)
    as (Rsum & Rin & Rout & Fin & Fout).
  unfold tfm_psa_call.
  rewrite (wrap_size_t_small _ Rsum), (wrap_size_t_small _ Rin),
    (wrap_size_t_small _ Rout).
  replace (in_len + out_len >? PSA_MAX_IOVEC) with false
    by (symmetry; apply gtb_false; lia).
  cbn [panic_if].
  rewrite (bind_returned (ret tt) _ w tt w eq_refl).
  rewrite (bind_returned (spm_get_service_by_handle handle) _ w
             (Some service) w)
    by (unfold spm_get_service_by_handle; rewrite Hlive; reflexivity).
  rewrite (bind_returned (ret service) _ w service w eq_refl).
  rewrite (bind_returned (memory_check in_vec _ ns_caller) _ w _ _ eq_refl).
  rewrite Hcheck_in. cbn [negb is_ipc_success panic_if].
  rewrite (bind_returned (ret tt) _ _ tt _ eq_refl).
  rewrite (bind_returned (memory_check out_vec _ ns_caller) _ _ _ _ eq_refl).
  cbn [spm record_event]. rewrite Hcheck_out.
  cbn [negb is_ipc_success panic_if].
  rewrite (bind_returned (ret tt) _ _ tt _ eq_refl).
  set (w2 := mk_world (spm w)
               ((trace w ++ [EvMemoryCheck in_vec (in_len * sizeof_psa_vec)
                               ns_caller IPC_SUCCESS])
                ++ [EvMemoryCheck out_vec (out_len * sizeof_psa_vec)
                      ns_caller IPC_SUCCESS])
               (caller_mem w)).
  assert (now w2 = (now w + 2)%nat) as N2.
  { unfold now, w2. cbn [trace]. rewrite !length_app. cbn. lia. }
  rewrite (bind_returned (tfm_memcpy Invecs _ _ _) _ w2 (local_copy (snapshot w 2 in_vec in_len))
             (record_event
                (EvMemcpy Invecs in_vec (in_len * sizeof_psa_vec)
                          (snapshot w 2 in_vec in_len)) w2)).
  2: { unfold tfm_memcpy. rewrite zeroed_vecs_length.
       replace (in_len * sizeof_psa_vec >? sizeof_psa_vec * PSA_MAX_IOVEC)
         with false by (symmetry; apply gtb_false; lia).
       rewrite N2, Z.div_mul by (unfold sizeof_psa_vec; lia).
       reflexivity. }
  set (w3 := record_event _ w2).
  assert (now w3 = (now w + 3)%nat) as N3.
  { unfold w3. rewrite now_record_event. lia. }
  rewrite (bind_returned (tfm_memcpy Outvecs _ _ _) _ w3 (local_copy (snapshot w 3 out_vec out_len))
             (record_event
                (EvMemcpy Outvecs out_vec (out_len * sizeof_psa_vec)
                          (snapshot w 3 out_vec out_len)) w3)).
  2: { unfold tfm_memcpy. rewrite zeroed_vecs_length.
       replace (out_len * sizeof_psa_vec >? sizeof_psa_vec * PSA_MAX_IOVEC)
         with false by (symmetry; apply gtb_false; lia).
       rewrite N3, Z.div_mul by (unfold sizeof_psa_vec; lia).
       reflexivity. }
  set (w4 := record_event _ w3).
  assert (in_len = 0 + Z.of_nat (length (snapshot w 2 in_vec in_len)))
    as Lin by (unfold snapshot; rewrite load_vecs_length, Z2Nat.id; lia).
  assert (out_len = 0 + Z.of_nat (length (snapshot w 3 out_vec out_len)))
    as Lout by (unfold snapshot; rewrite load_vecs_length, Z2Nat.id; lia).
  unfold local_copy at 1.
  rewrite (bind_returned (check_vecs _ _ _ _) _ w4 tt _
             (check_vecs_legal ns_caller _ _ 0 in_len w4 Lin Hlegal_in)).
  unfold local_copy at 1.
  match goal with
  | |- bind (check_vecs _ _ _ _) _ ?w5 = _ =>
      rewrite (bind_returned (check_vecs _ _ _ _) _ w5 tt _
                 (check_vecs_legal ns_caller _ _ 0 out_len w5 Lout
                                   Hlegal_out))
  end.
  f_equal. unfold w4, w3, w2, record_event, call_prefix.
  cbn [spm trace caller_mem]. f_equal.
  rewrite <- !app_assoc. reflexivity.
Qed.


(** When the message is constructed, [tfm_psa_call] hands it over and
    panics exactly when the hand-off does not report [IPC_SUCCESS]. *)
Lemma tfm_psa_call_hand_off
    (handle in_vec in_len out_vec out_len ns_caller : Z) (w : world)
    (service : tfm_spm_service_t) (msg : tfm_msg_body_t)
    (s1 s2 : spm_state) (st : ipc_status) :
  0 <= in_len -> 0 <= out_len -> in_len + out_len <= PSA_MAX_IOVEC ->
  tfm_spm_get_service_by_handle (spm w) handle = Some service ->
  tfm_memory_check (spm w) in_vec (in_len * sizeof_psa_vec) ns_caller
  = IPC_SUCCESS ->
  tfm_memory_check (spm w) out_vec (out_len * sizeof_psa_vec) ns_caller
  = IPC_SUCCESS ->
  vecs_legal (spm w) ns_caller (snapshot w 2 in_vec in_len) = true ->
  vecs_legal (spm w) ns_caller (snapshot w 3 out_vec out_len) = true ->
  tfm_spm_create_msg (spm w) service handle PSA_IPC_CALL ns_caller
    (Some (local_copy (snapshot w 2 in_vec in_len))) in_len
    (Some (local_copy (snapshot w 3 out_vec out_len))) out_len out_vec
  = (Some msg, s1) ->
  tfm_spm_send_event s1 service msg = (st, s2) ->
  tfm_psa_call handle in_vec in_len out_vec out_len ns_caller w =
  (if is_ipc_success st then Returned PSA_SUCCESS else Panicked,
   mk_world s2
     (((trace w ++ call_prefix w in_vec in_len out_vec out_len ns_caller)
       ++ [EvCreateMsg service handle PSA_IPC_CALL ns_caller
             (Some (local_copy (snapshot w 2 in_vec in_len))) in_len
             (Some (local_copy (snapshot w 3 out_vec out_len))) out_len
             out_vec (Some msg)])
      ++ [EvSendEvent service msg st])
     (caller_mem w)).
Proof.
  intros Hin Hout Hcount Hlive Hci Hco Hli Hlo Hcreate Hsend.
  rewrite (tfm_psa_call_run handle in_vec in_len out_vec out_len ns_caller
             w service Hin Hout Hcount Hlive Hci Hco Hli Hlo).
  unfold bind, spm_create_msg, spm_send_event, ret, record_event, with_spm.
  cbn [spm trace caller_mem]. rewrite Hcreate.
  cbn [spm trace caller_mem]. rewrite Hsend.
  destruct st; reflexivity.
Qed.

(** When the sum of the two counts does not wrap, the count check does
    what its comment says: the call panics at once. *)
Lemma tfm_psa_call_count_check
    (handle in_vec in_len out_vec out_len ns_caller : Z) (w : world) :
  0 <= in_len -> 0 <= out_len ->
  in_len + out_len < size_t_modulus ->
  in_len + out_len > PSA_MAX_IOVEC ->
  tfm_psa_call handle in_vec in_len out_vec out_len ns_caller w
  = (Panicked, w).
Proof.
  intros Hin Hout Hfit Hmax. unfold tfm_psa_call.
  rewrite wrap_size_t_small by lia.
  rewrite (gtb_true _ _ Hmax). reflexivity.
Qed.

(** C10. The status of the hand-off to the event path.  [tfm_psa_connect]
    returns [PSA_SUCCESS] and [tfm_psa_close] returns whatever status the
    hand-off reported; [tfm_psa_call] returns [PSA_SUCCESS] when the
    hand-off reported [IPC_SUCCESS] and panics when it reported anything
    else. *)
Theorem hand_off_status_handling :
  (forall sid minor ns_caller w service msg s1 st s2,
      tfm_spm_get_service_by_sid (spm w) sid = Some service ->
      ns_caller = 0 \/ non_secure_client (service_db service) = true ->
      tfm_spm_check_client_version (spm w) service minor = IPC_SUCCESS ->
      tfm_spm_create_msg (spm w) service PSA_NULL_HANDLE PSA_IPC_CONNECT
                         ns_caller None 0 None 0 NULL = (Some msg, s1) ->
      tfm_spm_send_event s1 service msg = (st, s2) ->
      fst (tfm_psa_connect sid minor ns_caller w) = Returned PSA_SUCCESS
      /\ trace (snd (tfm_psa_connect sid minor ns_caller w)) =
         (trace w
          ++ [EvCreateMsg service PSA_NULL_HANDLE PSA_IPC_CONNECT ns_caller
                          None 0 None 0 NULL (Some msg)])
         ++ [EvSendEvent service msg st])
  /\
  (forall handle ns_caller w service msg s1 st s2,
      handle <> PSA_NULL_HANDLE ->
      tfm_spm_get_service_by_handle (spm w) handle = Some service ->
      tfm_spm_create_msg (spm w) service handle PSA_IPC_DISCONNECT
                         ns_caller None 0 None 0 NULL = (Some msg, s1) ->
      tfm_spm_send_event s1 service msg = (st, s2) ->
      fst (tfm_psa_close handle ns_caller w) = Returned tt
      /\ trace (snd (tfm_psa_close handle ns_caller w)) =
         (trace w
          ++ [EvCreateMsg service handle PSA_IPC_DISCONNECT ns_caller
                          None 0 None 0 NULL (Some msg)])
         ++ [EvSendEvent service msg st])
  /\
  (forall handle in_vec in_len out_vec out_len ns_caller w service msg
          s1 st s2,
      0 <= in_len -> 0 <= out_len -> in_len + out_len <= PSA_MAX_IOVEC ->
      tfm_spm_get_service_by_handle (spm w) handle = Some service ->
      tfm_memory_check (spm w) in_vec (in_len * sizeof_psa_vec) ns_caller
      = IPC_SUCCESS ->
      tfm_memory_check (spm w) out_vec (out_len * sizeof_psa_vec) ns_caller
      = IPC_SUCCESS ->
      vecs_legal (spm w) ns_caller (snapshot w 2 in_vec in_len) = true ->
      vecs_legal (spm w) ns_caller (snapshot w 3 out_vec out_len) = true ->
      tfm_spm_create_msg (spm w) service handle PSA_IPC_CALL ns_caller
        (Some (local_copy (snapshot w 2 in_vec in_len))) in_len
        (Some (local_copy (snapshot w 3 out_vec out_len))) out_len out_vec
      = (Some msg, s1) ->
      tfm_spm_send_event s1 service msg = (st, s2) ->
      fst (tfm_psa_call handle in_vec in_len out_vec out_len ns_caller w) =
      match st with
      | IPC_SUCCESS => Returned PSA_SUCCESS
      | IPC_ERROR _ => Panicked
      end).
Proof.
  split; [| split].
  - intros sid minor ns_caller w service msg s1 st s2
           Hsid Hauth Hver Hcreate Hsend.
    rewrite (tfm_psa_connect_run sid minor ns_caller w service
               Hsid Hauth Hver).
    rewrite create_then_send, Hcreate, Hsend. split; reflexivity.
  - intros handle ns_caller w service msg s1 st s2
           Hnull Hlive Hcreate Hsend.
    rewrite (tfm_psa_close_run handle ns_caller w service Hnull Hlive).
    rewrite create_then_send, Hcreate, Hsend. split; reflexivity.
  - intros handle in_vec in_len out_vec out_len ns_caller w service msg
           s1 st s2 Hin Hout Hcount Hlive Hci Hco Hli Hlo Hcreate Hsend.
    rewrite (tfm_psa_call_hand_off handle in_vec in_len out_vec out_len
               ns_caller w service msg s1 s2 st
               Hin Hout Hcount Hlive Hci Hco Hli Hlo Hcreate Hsend).
    destruct st; reflexivity.
Qed.

End CallRun.

(* ================================================================= *)
(** ** The RPC wrappers *)

Section RpcWrapperProperties.

Context {P : Platform}.
Variable TFM_PARTITION_UNPRIVILEGED_MODE : Z.

(** The version, connect and close wrappers are their entry points on the
    fields of the block. *)
Lemma tfm_rpc_wrappers_forward (params : client_call_params_t)
    (ns_caller : bool) :
  tfm_rpc_psa_version params ns_caller
  = tfm_psa_version (sid params) (Z.b2z ns_caller)
  /\ tfm_rpc_psa_connect params ns_caller
     = tfm_psa_connect (sid params) (version params) (Z.b2z ns_caller)
  /\ tfm_rpc_psa_close params ns_caller
     = tfm_psa_close (handle params) (Z.b2z ns_caller).
Proof. repeat split. Qed.

(** C6. The call wrapper does not forward the six fields to
    [tfm_psa_call]: the call it writes has eight arguments, with the
    operation type of the block in second place and the privilege mode in
    last place, where [tfm_psa_call] has six parameters.  It is therefore
    no call of that function, and in particular not the call a direct
    caller makes with the fields of the block. *)
Theorem tfm_rpc_psa_call_arity_mismatch (params : client_call_params_t)
    (ns_caller : bool) :
  tfm_rpc_psa_call_arguments TFM_PARTITION_UNPRIVILEGED_MODE params ns_caller
  = [handle params; type params; in_vec params; in_len params;
     out_vec params; out_len params; Z.b2z ns_caller;
     TFM_PARTITION_UNPRIVILEGED_MODE]
  /\ tfm_rpc_psa_call TFM_PARTITION_UNPRIVILEGED_MODE params ns_caller = None
  /\ tfm_rpc_psa_call TFM_PARTITION_UNPRIVILEGED_MODE params ns_caller
     <> Some (tfm_psa_call (handle params) (in_vec params) (in_len params)
                           (out_vec params) (out_len params)
                           (Z.b2z ns_caller)).
Proof.
  split; [reflexivity |]. split; [reflexivity |]. discriminate.
Qed.

End RpcWrapperProperties.

(* ================================================================= *)
(** ** The operations slot *)

Lemma handle_req_eqb_eq f g : handle_req_eqb f g = true <-> f = g.
Proof.
  destruct f as [[| a] |], g as [[| b] |]; cbn; split;
    try congruence; try reflexivity.
  - intros H. apply Z.eqb_eq in H. congruence.
  - intros H. apply Z.eqb_eq. congruence.
Qed.

Lemma reply_eqb_eq f g : reply_eqb f g = true <-> f = g.
Proof.
  destruct f as [[| a] |], g as [[| b] |]; cbn; split;
    try congruence; try reflexivity.
  - intros H. apply Z.eqb_eq in H. congruence.
  - intros H. apply Z.eqb_eq. congruence.
Qed.

Lemma ops_eqb_eq a b : ops_eqb a b = true <-> a = b.
Proof.
  unfold ops_eqb. rewrite andb_true_iff, handle_req_eqb_eq, reply_eqb_eq.
  destruct a, b; cbn. split.
  - intros [-> ->]. reflexivity.
  - intros H. inversion H. auto.
Qed.

(** The conflict test of [tfm_rpc_register_ops] is the test that the slot
    does not hold the default pair. *)
Lemma conflict_test rpc_ops :
  negb (handle_req_eqb (handle_req rpc_ops) (Some default_handle_req))
  || negb (reply_eqb (reply rpc_ops) (Some default_mailbox_reply))
  = negb (ops_eqb rpc_ops default_rpc_ops).
Proof.
  unfold ops_eqb, default_rpc_ops. cbn [handle_req reply].
  rewrite negb_andb. reflexivity.
Qed.

Lemma is_null_false {A} (p : option A) : p <> None -> is_null p = false.
Proof. destruct p; [reflexivity | congruence]. Qed.

Lemma register_on_default ops :
  handle_req ops <> None -> reply ops <> None ->
  tfm_rpc_register_ops (Some ops) default_rpc_ops
  = (TFM_RPC_SUCCESS, mk_ops (handle_req ops) (reply ops)).
Proof.
  intros Hh Hr. unfold tfm_rpc_register_ops.
  rewrite (is_null_false _ Hh), (is_null_false _ Hr). reflexivity.
Qed.

Lemma register_on_bound ops rpc_ops :
  handle_req ops <> None -> reply ops <> None ->
  rpc_ops <> default_rpc_ops ->
  tfm_rpc_register_ops (Some ops) rpc_ops
  = (TFM_RPC_CONFLICT_CALLBACK, rpc_ops).
Proof.
  intros Hh Hr Hbound. unfold tfm_rpc_register_ops.
  rewrite (is_null_false _ Hh), (is_null_false _ Hr). cbn [orb].
  rewrite conflict_test.
  destruct (ops_eqb rpc_ops default_rpc_ops) eqn:E; [| reflexivity].
  apply ops_eqb_eq in E. contradiction.
Qed.

Lemma slot_step_consistent s r :
  slot_consistent s -> slot_consistent (slot_step s r).
Proof.
  intros Hs. destruct r as [ops_ptr |]; cbn [slot_step].
  2: { left. split; reflexivity. }
  unfold tfm_rpc_register_ops.
  destruct ops_ptr as [ops |]; [| destruct s; exact Hs].
  destruct (is_null (handle_req ops) || is_null (reply ops));
    [destruct s; exact Hs |].
  rewrite conflict_test.
  destruct (ops_eqb (slot_ops s) default_rpc_ops) eqn:E; cbn [negb].
  - apply ops_eqb_eq in E.
    destruct Hs as [[_ Hact] | [Hbound _]]; [| contradiction].
    destruct (ops_eqb (mk_ops (handle_req ops) (reply ops)) default_rpc_ops)
      eqn:E'.
    + apply ops_eqb_eq in E'. left. cbn. split; assumption.
    + right. cbn. rewrite Hact. split; [| reflexivity].
      intros Heq. apply ops_eqb_eq in Heq. congruence.
  - destruct s; exact Hs.
Qed.

Lemma slot_run_consistent rs : forall s,
  slot_consistent s -> slot_consistent (slot_run rs s).
Proof.
  induction rs as [| r rs IH]; intros s Hs; cbn; [exact Hs |].
  apply IH, slot_step_consistent, Hs.
Qed.

(** C4. [tfm_rpc_register_ops] returns [TFM_RPC_INVAL_PARAM], the slot
    unchanged, when the operations pointer is null or one of its two
    handlers is null; with both handlers present it returns
    [TFM_RPC_CONFLICT_CALLBACK], the slot unchanged, when the slot does not
    hold the default pair, and otherwise installs the two handlers and
    returns [TFM_RPC_SUCCESS].  Over any sequence of register and
    unregister requests from the initial slot, at most one non-default
    registration is active. *)
Theorem tfm_rpc_register_ops_spec :
  (forall rpc_ops,
      tfm_rpc_register_ops None rpc_ops = (TFM_RPC_INVAL_PARAM, rpc_ops))
  /\ (forall ops rpc_ops,
         handle_req ops = None \/ reply ops = None ->
         tfm_rpc_register_ops (Some ops) rpc_ops
         = (TFM_RPC_INVAL_PARAM, rpc_ops))
  /\ (forall ops rpc_ops,
         handle_req ops <> None -> reply ops <> None ->
         rpc_ops <> default_rpc_ops ->
         tfm_rpc_register_ops (Some ops) rpc_ops
         = (TFM_RPC_CONFLICT_CALLBACK, rpc_ops))
  /\ (forall ops,
         handle_req ops <> None -> reply ops <> None ->
         tfm_rpc_register_ops (Some ops) default_rpc_ops
         = (TFM_RPC_SUCCESS, mk_ops (handle_req ops) (reply ops)))
  /\ (forall rs,
         (length (active_registrations (slot_run rs initial_slot)) <= 1)%nat).
Proof.
  split; [reflexivity |].
  split.
  { intros ops rpc_ops [H | H]; unfold tfm_rpc_register_ops; rewrite H;
      cbn [is_null orb]; [| rewrite orb_true_r]; reflexivity. }
  split; [exact register_on_bound |].
  split; [exact register_on_default |].
  intros rs.
  destruct (slot_run_consistent rs initial_slot) as [[_ H] | [_ H]];
    [left; split; reflexivity | |]; rewrite H; cbn; lia.
Qed.

(** C9. [tfm_rpc_unregister_ops] leaves the default pair in the slot
    whatever the slot held; doing it twice is doing it once; and a
    registration of two present handlers after it succeeds and installs
    them. *)
Theorem tfm_rpc_unregister_ops_spec :
  (forall rpc_ops, tfm_rpc_unregister_ops rpc_ops = default_rpc_ops)
  /\ (forall rpc_ops,
         tfm_rpc_unregister_ops (tfm_rpc_unregister_ops rpc_ops)
         = tfm_rpc_unregister_ops rpc_ops)
  /\ (forall ops rpc_ops,
         handle_req ops <> None -> reply ops <> None ->
         tfm_rpc_register_ops (Some ops) (tfm_rpc_unregister_ops rpc_ops)
         = (TFM_RPC_SUCCESS, mk_ops (handle_req ops) (reply ops))).
Proof.
  split; [reflexivity |]. split; [reflexivity |].
  intros ops rpc_ops Hh Hr. apply register_on_default; assumption.
Qed.

(* ================================================================= *)
(** ** Runs on the concrete platform *)

(** Evaluate the left-hand side of the goal and compare. *)
Ltac by_evaluation :=
  match goal with
  | |- ?l = _ => let v := eval vm_compute in l in change l with v
  end;
  reflexivity.

(** The scenario of the service directory with S1: a version query, a
    connect that succeeds, and a call with one input and one output
    vector. *)
Example version_query_S1 :
  fst (tfm_psa_version 7 1 (demo_world demo_spm0 steady)) = Returned 2.
Proof. by_evaluation. Qed.

Example connect_version_mismatch :
  tfm_psa_connect 7 99 1 (demo_world demo_spm0 steady)
  = (Panicked, demo_world demo_spm0 steady).
Proof. by_evaluation. Qed.

Example call_with_no_vectors :
  fst (tfm_psa_call 5 NULL 0 NULL 0 1 (demo_world demo_spm0 steady))
  = Returned PSA_SUCCESS.
Proof. by_evaluation. Qed.

(** A caller that rewrites its descriptors before the second copy is seen:
    the hostile output descriptor is the one copied, and its check fails. *)
Example rewrite_before_second_copy :
  fst (tfm_psa_call 5 0x20000000 1 0x20000040 1 1
                    (demo_world demo_spm0 (rewritten_after 2)))
  = Panicked.
Proof. by_evaluation. Qed.

(** C2. The count check of [tfm_psa_call] adds the two counts in [size_t].
    With [in_len = 0x20000001] and [out_len = 0xE0000000] the sum exceeds
    PSA_MAX_IOVEC but wraps to 1, so the call does not panic there: it
    checks and copies the caller's input descriptor, checks the buffer it
    names and the remaining elements of the local array, and then indexes
    the local array past its end. *)
Theorem tfm_psa_call_count_check_wraps :
  let w := demo_world demo_spm0 steady in
  let r := tfm_psa_call 5 0x20000000 0x20000001 0x20000040 0xE0000000 1 w in
  0x20000001 + 0xE0000000 > PSA_MAX_IOVEC
  /\ wrap_size_t (0x20000001 + 0xE0000000) = 1
  /\ r <> (Panicked, w)
  /\ fst r = Undefined
  /\ trace (snd r) =
     [EvMemoryCheck 0x20000000 8 1 IPC_SUCCESS;
      EvMemoryCheck 0x20000040 0 1 IPC_SUCCESS;
      EvMemcpy Invecs 0x20000000 8 [mk_vec 0x20000100 16];
      EvMemcpy Outvecs 0x20000040 0 [];
      EvMemoryCheck 0x20000100 16 1 IPC_SUCCESS;
      EvMemoryCheck 0 0 1 IPC_SUCCESS;
      EvMemoryCheck 0 0 1 IPC_SUCCESS;
      EvMemoryCheck 0 0 1 IPC_SUCCESS].
Proof.
  cbv zeta. split; [reflexivity |].
  split; [by_evaluation |].
  assert (fst (tfm_psa_call 5 0x20000000 0x20000001 0x20000040 0xE0000000 1
                            (demo_world demo_spm0 steady)) = Undefined)
    as Hout by by_evaluation.
  split; [| split; [exact Hout | by_evaluation]].
  intros H. rewrite H in Hout. discriminate Hout.
Qed.

Lemma tfm_psa_connect_busy_or_success_witness :
  fst (tfm_psa_connect 7 2 1 (demo_world demo_spm0 steady))
  = Returned PSA_SUCCESS
  /\ fst (tfm_psa_connect 7 2 1 (demo_world demo_spm_exhausted steady))
     = Returned PSA_CONNECTION_BUSY.
Proof.
  split.
  - destruct (tfm_psa_connect_busy_or_success
                7 2 1 (demo_world demo_spm0 steady) S1
                eq_refl (or_intror eq_refl) eq_refl)
      as [(s1 & Hcreate & Hrun) | (msg & s1 & st & s2 & _ & _ & Hrun)].
    + discriminate Hcreate.
    + rewrite Hrun; reflexivity.
  - destruct (tfm_psa_connect_busy_or_success
                7 2 1 (demo_world demo_spm_exhausted steady) S1
                eq_refl (or_intror eq_refl) eq_refl)
      as [(s1 & _ & Hrun) | (msg & s1 & st & s2 & Hcreate & _ & _)].
    + rewrite Hrun; reflexivity.
    + discriminate Hcreate.
Defined.

Lemma tfm_psa_close_live_handle_witness :
  fst (tfm_psa_close 5 1 (demo_world demo_spm_exhausted steady))
  = Returned tt
  /\ fst (tfm_psa_close 5 1 (demo_world demo_spm0 steady)) = Returned tt.
Proof.
  assert (5 <> @PSA_NULL_HANDLE demo_platform) as Hnull
    by (cbn; discriminate).
  split.
  - destruct (tfm_psa_close_live_handle
                5 1 (demo_world demo_spm_exhausted steady) S1 Hnull eq_refl)
      as [(s1 & _ & Hrun) | (msg & s1 & st & s2 & _ & _ & Hrun)];
      rewrite Hrun; reflexivity.
  - destruct (tfm_psa_close_live_handle
                5 1 (demo_world demo_spm0 steady) S1 Hnull eq_refl)
      as [(s1 & _ & Hrun) | (msg & s1 & st & s2 & _ & _ & Hrun)];
      rewrite Hrun; reflexivity.
Defined.

Lemma hand_off_status_handling_witness :
  let w := demo_world demo_spm_event_down steady in
  fst (tfm_psa_connect 7 2 1 w) = Returned PSA_SUCCESS
  /\ fst (tfm_psa_close 5 1 w) = Returned tt
  /\ fst (tfm_psa_call 5 0x20000000 1 0x20000040 1 1 w) = Panicked.
Proof.
  cbv zeta.
  assert (5 <> @PSA_NULL_HANDLE demo_platform) as Hnull
    by (cbn; discriminate).
  destruct (@hand_off_status_handling demo_platform)
    as (Hconnect & Hclose & Hcall).
  split; [| split].
  - eapply Hconnect.
    + reflexivity.
    + right. reflexivity.
    + reflexivity.
    + reflexivity.
    + reflexivity.
  - eapply Hclose.
    + exact Hnull.
    + reflexivity.
    + reflexivity.
    + reflexivity.
  - erewrite (Hcall _ _ _ _ _ _ _ S1 _ _ (IPC_ERROR 3)).
    + reflexivity.
    + cbn. lia.
    + cbn. lia.
    + cbn. lia.
    + reflexivity.
    + reflexivity.
    + reflexivity.
    + reflexivity.
    + reflexivity.
    + reflexivity.
    + reflexivity.
Defined.

Lemma tfm_rpc_register_ops_spec_witness :
  tfm_rpc_register_ops (Some (mk_ops None (Some (transport_reply 2))))
                       default_rpc_ops
  = (TFM_RPC_INVAL_PARAM, default_rpc_ops)
  /\ tfm_rpc_register_ops (Some other_ops) mailbox_ops
     = (TFM_RPC_CONFLICT_CALLBACK, mailbox_ops)
  /\ tfm_rpc_register_ops (Some mailbox_ops) default_rpc_ops
     = (TFM_RPC_SUCCESS, mailbox_ops).
Proof.
  destruct tfm_rpc_register_ops_spec as (_ & Hinval & Hconflict & Hok & _).
  split; [| split].
  - apply Hinval. left. reflexivity.
  - apply Hconflict; discriminate.
  - apply (Hok mailbox_ops); discriminate.
Defined.

Lemma tfm_rpc_unregister_ops_spec_witness :
  tfm_rpc_register_ops (Some other_ops) (tfm_rpc_unregister_ops mailbox_ops)
  = (TFM_RPC_SUCCESS, other_ops).
Proof.
  destruct tfm_rpc_unregister_ops_spec as (_ & _ & Hregister).
  apply (Hregister other_ops mailbox_ops); discriminate.
Defined.

(* ================================================================= *)
(** ** Fatal paths of connect and close *)

Section FatalPaths.

Context {P : Platform}.

Lemma not_authorized_true ns_caller service :
  not_authorized ns_caller service = true <->
  ns_caller <> 0 /\ non_secure_client (service_db service) = false.
Proof.
  unfold not_authorized. rewrite andb_true_iff, !negb_true_iff, Z.eqb_neq.
  reflexivity.
Qed.

Lemma is_ipc_success_false st :
  is_ipc_success st = false <-> st <> IPC_SUCCESS.
Proof. destruct st; cbn; split; congruence. Qed.

(** [tfm_psa_connect] panics exactly when the identifier does not resolve,
    or a non-secure caller names a service closed to non-secure clients, or
    the compatibility check does not answer [IPC_SUCCESS]; and when it
    panics it has constructed no message and changed nothing. *)
Theorem tfm_psa_connect_panics (sid minor ns_caller : Z) (w : world) :
  (fst (tfm_psa_connect sid minor ns_caller w) = Panicked <->
   match tfm_spm_get_service_by_sid (spm w) sid with
   | None => True
   | Some service =>
       (ns_caller <> 0 /\ non_secure_client (service_db service) = false)
       \/ tfm_spm_check_client_version (spm w) service minor <> IPC_SUCCESS
   end)
  /\ (fst (tfm_psa_connect sid minor ns_caller w) = Panicked ->
      snd (tfm_psa_connect sid minor ns_caller w) = w).
Proof.
  unfold tfm_psa_connect.
  rewrite (bind_returned (spm_get_service_by_sid sid) _ w _ w eq_refl).
  destruct (tfm_spm_get_service_by_sid (spm w) sid) as [service |].
  2: { split; [split; [trivial | reflexivity] | reflexivity]. }
  rewrite (bind_returned (ret service) _ w service w eq_refl).
  destruct (not_authorized ns_caller service) eqn:Eauth.
  { apply not_authorized_true in Eauth.
    split; [split; [auto | reflexivity] | reflexivity]. }
  cbn [panic_if].
  rewrite (bind_returned (ret tt) _ w tt w eq_refl).
  rewrite (bind_returned (spm_check_client_version service minor) _ w
             _ w eq_refl).
  assert (~ (ns_caller <> 0
             /\ non_secure_client (service_db service) = false)) as Hauth.
  { intros H. apply not_authorized_true in H. congruence. }
  destruct (tfm_spm_check_client_version (spm w) service minor) as [| code]
    eqn:Ever; cbn [is_ipc_success negb panic_if].
  - rewrite (bind_returned (ret tt) _ w tt w eq_refl).
    rewrite create_then_send.
    destruct (tfm_spm_create_msg (spm w) service PSA_NULL_HANDLE
                PSA_IPC_CONNECT ns_caller None 0 None 0 NULL)
      as [[msg |] s1]; cbn [fst snd];
      (split; [split; [discriminate | intros [H | H]; contradiction]
              | discriminate]).
  - split; [split; [right; discriminate | reflexivity] | reflexivity].
Qed.

(** A service [tfm_psa_connect] accepts is visible to [tfm_psa_version]:
    when a connect does not panic, the version query by the same caller
    for the same identifier answers the minor version of the service the
    identifier resolves to. *)
Theorem tfm_psa_version_of_connectable (sid minor ns_caller : Z) (w : world) :
  fst (tfm_psa_connect sid minor ns_caller w) <> Panicked ->
  exists service,
    tfm_spm_get_service_by_sid (spm w) sid = Some service
    /\ tfm_psa_version sid ns_caller w
       = (Returned (minor_version (service_db service)), w).
Proof.
  intros Hok.
  unfold tfm_psa_connect in Hok. unfold tfm_psa_version.
  rewrite (bind_returned (spm_get_service_by_sid sid) _ w _ w eq_refl)
    in Hok.
  rewrite (bind_returned (spm_get_service_by_sid sid) _ w _ w eq_refl).
  destruct (tfm_spm_get_service_by_sid (spm w) sid) as [service |].
  2: { exfalso. apply Hok. reflexivity. }
  exists service. split; [reflexivity |].
  rewrite (bind_returned (ret service) _ w service w eq_refl) in Hok.
  destruct (not_authorized ns_caller service); [| reflexivity].
  exfalso. apply Hok. reflexivity.
Qed.

(** [tfm_psa_close] panics exactly when the handle is not the null handle
    and does not resolve, and then it has changed nothing.  In particular a
    failed message construction and a refused hand-off never make it
    panic. *)
Theorem tfm_psa_close_panics (handle ns_caller : Z) (w : world) :
  (fst (tfm_psa_close handle ns_caller w) = Panicked <->
   handle <> PSA_NULL_HANDLE
   /\ tfm_spm_get_service_by_handle (spm w) handle = None)
  /\ (fst (tfm_psa_close handle ns_caller w) = Panicked ->
      snd (tfm_psa_close handle ns_caller w) = w).
Proof.
  unfold tfm_psa_close.
  destruct (Z.eqb_spec handle PSA_NULL_HANDLE) as [Heq | Hneq].
  { split; [split; [discriminate | intros [H _]; contradiction]
           | discriminate]. }
  rewrite (bind_returned (spm_get_service_by_handle handle) _ w _ w eq_refl).
  destruct (tfm_spm_get_service_by_handle (spm w) handle) as [service |].
  2: { split; [split; [auto | reflexivity] | reflexivity]. }
  rewrite (bind_returned (ret service) _ w service w eq_refl).
  rewrite create_then_send.
  destruct (tfm_spm_create_msg (spm w) service handle PSA_IPC_DISCONNECT
              ns_caller None 0 None 0 NULL) as [[msg |] s1]; cbn [fst snd];
    (split; [split; [discriminate | intros [_ H]; discriminate]
            | discriminate]).
Qed.

End FatalPaths.

(* ================================================================= *)
(** ** Every way through tfm_psa_call *)

Section CallPaths.

Context {P : Platform}.

Lemma bind_returned_inv {A B} (c : M A) (k : A -> M B) w b w2 :
  bind c k w = (Returned b, w2) ->
  exists a w1, c w = (Returned a, w1) /\ k a w1 = (Returned b, w2).
Proof.
  unfold bind. destruct (c w) as [[a | |] w1]; intros H;
    try discriminate H.
  exists a, w1. split; [reflexivity | exact H].
Qed.

Lemma bind_not_undefined {A B} (c : M A) (k : A -> M B) w :
  fst (c w) <> Undefined ->
  (forall a w1, c w = (Returned a, w1) -> fst (k a w1) <> Undefined) ->
  fst (bind c k w) <> Undefined.
Proof.
  unfold bind. intros Hc Hk. destruct (c w) as [[a | |] w1]; cbn in *.
  - apply Hk. reflexivity.
  - discriminate.
  - congruence.
Qed.

Lemma panic_if_not_undefined b w : fst (panic_if b w) <> Undefined.
Proof. destruct b; discriminate. Qed.

Lemma memory_check_not_undefined buffer size ns_caller w :
  fst (memory_check buffer size ns_caller w) <> Undefined.
Proof. discriminate. Qed.

Lemma create_msg_not_undefined service handle ty ns iv il ov ol cov w :
  fst (spm_create_msg service handle ty ns iv il ov ol cov w) <> Undefined.
Proof.
  unfold spm_create_msg.
  destruct (tfm_spm_create_msg (spm w) service handle ty ns iv il ov ol cov);
    discriminate.
Qed.

Lemma send_event_not_undefined service msg w :
  fst (spm_send_event service msg w) <> Undefined.
Proof.
  unfold spm_send_event.
  destruct (tfm_spm_send_event (spm w) service msg); discriminate.
Qed.

(** The check loop stays inside the array when the bound does. *)
Lemma check_vecs_in_bounds ns_caller rest : forall i n w,
  n <= i + Z.of_nat (length rest) ->
  fst (check_vecs rest i n ns_caller w) <> Undefined.
Proof.
  induction rest as [| v rest IH]; intros i n w Hn; cbn [check_vecs].
  - cbn [length] in Hn. rewrite (proj2 (Z.ltb_ge i n)) by lia. discriminate.
  - destruct (i <? n); [| discriminate].
    apply bind_not_undefined; [apply memory_check_not_undefined |].
    intros st w1 _.
    apply bind_not_undefined; [apply panic_if_not_undefined |].
    intros u w2 _. apply IH. cbn [length] in Hn. lia.
Qed.

Lemma local_copy_length vs :
  (length vs <= length zeroed_vecs)%nat ->
  length (local_copy vs) = length zeroed_vecs.
Proof.
  intros H. unfold local_copy. rewrite length_app, length_skipn. lia.
Qed.

(** A copy of [n] descriptors, [n] within the maximum, succeeds and yields
    the local copy of the caller's descriptors at that moment. *)
Lemma tfm_memcpy_in_bounds dst src n w :
  0 <= n <= PSA_MAX_IOVEC ->
  tfm_memcpy dst zeroed_vecs src (n * sizeof_psa_vec) w =
  (Returned (local_copy (snapshot w 0 src n)),
   record_event (EvMemcpy dst src (n * sizeof_psa_vec) (snapshot w 0 src n))
                w).
Proof.
  intros Hn. unfold tfm_memcpy. rewrite zeroed_vecs_length.
  rewrite gtb_false by (unfold sizeof_psa_vec; lia).
  rewrite Z.div_mul by (unfold sizeof_psa_vec; lia).
  unfold snapshot. rewrite Nat.add_0_r. reflexivity.
Qed.

Lemma snapshot_length w k src n :
  0 <= n -> Z.of_nat (length (snapshot w k src n)) = n.
Proof.
  intros Hn. unfold snapshot. rewrite load_vecs_length. apply Z2Nat.id, Hn.
Qed.

(** When the sum of the two counts does not wrap, [tfm_psa_call] never
    leaves the bounds of its local arrays: neither copy writes past the end
    of its array and neither loop reads past it. *)
Theorem tfm_psa_call_stays_in_bounds
    (handle in_vec in_len out_vec out_len ns_caller : Z) (w : world) :
  0 <= in_len -> 0 <= out_len ->
  in_len + out_len < size_t_modulus ->
  fst (tfm_psa_call handle in_vec in_len out_vec out_len ns_caller w)
  <> Undefined.
Proof.
  intros Hin Hout Hfit.
  destruct (Z_le_gt_dec (in_len + out_len) PSA_MAX_IOVEC) as [Hle | Hgt].
  2: { rewrite tfm_psa_call_count_check by assumption. discriminate. }
  destruct (count_in_range in_len out_len Hin Hout Hle)
    as (Rsum & Rin & Rout & Fin & Fout).
  unfold tfm_psa_call.
  rewrite (wrap_size_t_small _ Rin), (wrap_size_t_small _ Rout).
  apply bind_not_undefined; [apply panic_if_not_undefined |].
  intros u0 w0 _.
  apply bind_not_undefined; [discriminate |]. intros service w1 _.
  apply bind_not_undefined; [destruct service; discriminate |].
  intros service' w2 _.
  apply bind_not_undefined; [apply memory_check_not_undefined |].
  intros st1 w3 _.
  apply bind_not_undefined; [apply panic_if_not_undefined |].
  intros u1 w4 _.
  apply bind_not_undefined; [apply memory_check_not_undefined |].
  intros st2 w5 _.
  apply bind_not_undefined; [apply panic_if_not_undefined |].
  intros u2 w6 _.
  apply bind_not_undefined.
  { rewrite tfm_memcpy_in_bounds by lia. discriminate. }
  intros invecs w7 E7. rewrite tfm_memcpy_in_bounds in E7 by lia.
  injection E7 as <- _.
  apply bind_not_undefined.
  { rewrite tfm_memcpy_in_bounds by lia. discriminate. }
  intros outvecs w8 E8. rewrite tfm_memcpy_in_bounds in E8 by lia.
  injection E8 as <- _.
  pose proof zeroed_vecs_length as HZ.
  apply bind_not_undefined.
  { apply check_vecs_in_bounds. rewrite local_copy_length.
    - lia.
    - apply Nat2Z.inj_le. rewrite snapshot_length by lia. lia. }
  intros u3 w9 _.
  apply bind_not_undefined.
  { apply check_vecs_in_bounds. rewrite local_copy_length.
    - lia.
    - apply Nat2Z.inj_le. rewrite snapshot_length by lia. lia. }
  intros u4 w10 _.
  apply bind_not_undefined; [apply create_msg_not_undefined |].
  intros msg w11 _.
  apply bind_not_undefined; [destruct msg; discriminate |].
  intros msg' w12 _.
  apply bind_not_undefined; [apply send_event_not_undefined |].
  intros st w13 _.
  apply bind_not_undefined; [apply panic_if_not_undefined |].
  intros u5 w14 _. discriminate.
Qed.

(** The run of [tfm_psa_call] up to the two loops, when the counts are
    within the maximum, the handle is live and both descriptor arrays pass
    their boundary check. *)
Lemma tfm_psa_call_copied
    (handle in_vec in_len out_vec out_len ns_caller : Z) (w : world)
    (service : tfm_spm_service_t) :
  0 <= in_len -> 0 <= out_len -> in_len + out_len <= PSA_MAX_IOVEC ->
  tfm_spm_get_service_by_handle (spm w) handle = Some service ->
  tfm_memory_check (spm w) in_vec (in_len * sizeof_psa_vec) ns_caller
  = IPC_SUCCESS ->
  tfm_memory_check (spm w) out_vec (out_len * sizeof_psa_vec) ns_caller
  = IPC_SUCCESS ->
  tfm_psa_call handle in_vec in_len out_vec out_len ns_caller w =
  (check_vecs (local_copy (snapshot w 2 in_vec in_len)) 0 in_len ns_caller ;;
   check_vecs (local_copy (snapshot w 3 out_vec out_len)) 0 out_len
              ns_caller ;;
   msg <- spm_create_msg service handle PSA_IPC_CALL ns_caller
                         (Some (local_copy (snapshot w 2 in_vec in_len)))
                         in_len
                         (Some (local_copy (snapshot w 3 out_vec out_len)))
                         out_len out_vec ;;
   msg <- match msg with
          | None => tfm_panic
          | Some msg => ret msg
          end ;;
   st <- spm_send_event service msg ;;
   panic_if (negb (is_ipc_success st)) ;;
   ret PSA_SUCCESS)
    (after_copies w in_vec in_len out_vec out_len ns_caller).
Proof.
  intros Hin Hout Hcount Hlive Hcheck_in Hcheck_out.
  destruct (count_in_range in_len out_len Hin Hout Hcount)
    as (Rsum & Rin & Rout & Fin & Fout).
  unfold tfm_psa_call.
  rewrite (wrap_size_t_small _ Rsum), (wrap_size_t_small _ Rin),
    (wrap_size_t_small _ Rout).
  rewrite (gtb_false _ _ Hcount). cbn [panic_if].
  rewrite (bind_returned (ret tt) _ w tt w eq_refl).
  rewrite (bind_returned (spm_get_service_by_handle handle) _ w
             (Some service) w)
    by (unfold spm_get_service_by_handle; rewrite Hlive; reflexivity).
  rewrite (bind_returned (ret service) _ w service w eq_refl).
  rewrite (bind_returned (memory_check in_vec _ ns_caller) _ w _ _ eq_refl).
  rewrite Hcheck_in. cbn [negb is_ipc_success panic_if].
  rewrite (bind_returned (ret tt) _ _ tt _ eq_refl).
  rewrite (bind_returned (memory_check out_vec _ ns_caller) _ _ _ _ eq_refl).
  cbn [spm record_event]. rewrite Hcheck_out.
  cbn [negb is_ipc_success panic_if].
  rewrite (bind_returned (ret tt) _ _ tt _ eq_refl).
  set (w2 := record_event _ (record_event _ w)).
  assert (now w2 = (now w + 2)%nat) as N2.
  { unfold w2. rewrite !now_record_event. lia. }
  rewrite (bind_returned (tfm_memcpy Invecs _ _ _) _ w2 _ _
             (tfm_memcpy_in_bounds Invecs in_vec in_len w2
                                   ltac:(lia))).
  set (w3 := record_event _ w2).
  assert (now w3 = (now w + 3)%nat) as N3.
  { unfold w3. rewrite now_record_event. lia. }
  rewrite (bind_returned (tfm_memcpy Outvecs _ _ _) _ w3 _ _
             (tfm_memcpy_in_bounds Outvecs out_vec out_len w3
                                   ltac:(lia))).
  assert (snapshot w2 0 in_vec in_len = snapshot w 2 in_vec in_len) as S2.
  { unfold snapshot. rewrite N2, Nat.add_0_r. reflexivity. }
  assert (snapshot w3 0 out_vec out_len = snapshot w 3 out_vec out_len)
    as S3.
  { unfold snapshot. rewrite N3, Nat.add_0_r. reflexivity. }
  rewrite S3. unfold w3. rewrite !S2.
  f_equal. unfold w2, record_event, after_copies.
  cbn [spm trace caller_mem]. f_equal.
  rewrite <- !app_assoc. reflexivity.
Qed.

(** [tfm_psa_call] reads nothing from the caller before both descriptor
    arrays have passed their boundary check: when the input array fails
    the call panics after that one check, and when the output array fails
    it panics after the two checks; no copy is made, no message is
    constructed and the SPM state is untouched. *)
Theorem tfm_psa_call_array_rejected
    (handle in_vec in_len out_vec out_len ns_caller : Z) (w : world)
    (service : tfm_spm_service_t) :
  0 <= in_len -> 0 <= out_len -> in_len + out_len <= PSA_MAX_IOVEC ->
  tfm_spm_get_service_by_handle (spm w) handle = Some service ->
  let check_in :=
    tfm_memory_check (spm w) in_vec (in_len * sizeof_psa_vec) ns_caller in
  let check_out :=
    tfm_memory_check (spm w) out_vec (out_len * sizeof_psa_vec) ns_caller in
  (check_in <> IPC_SUCCESS ->
   tfm_psa_call handle in_vec in_len out_vec out_len ns_caller w =
   (Panicked,
    mk_world (spm w)
             (trace w ++ [EvMemoryCheck in_vec (in_len * sizeof_psa_vec)
                                        ns_caller check_in])
             (caller_mem w)))
  /\
  (check_in = IPC_SUCCESS -> check_out <> IPC_SUCCESS ->
   tfm_psa_call handle in_vec in_len out_vec out_len ns_caller w =
   (Panicked,
    mk_world (spm w)
             ((trace w ++ [EvMemoryCheck in_vec (in_len * sizeof_psa_vec)
                                         ns_caller IPC_SUCCESS])
              ++ [EvMemoryCheck out_vec (out_len * sizeof_psa_vec)
                                ns_caller check_out])
             (caller_mem w))).
Proof.
  intros Hin Hout Hcount Hlive check_in check_out.
  destruct (count_in_range in_len out_len Hin Hout Hcount)
    as (Rsum & Rin & Rout & Fin & Fout).
  unfold tfm_psa_call.
  rewrite (wrap_size_t_small _ Rsum), (wrap_size_t_small _ Rin),
    (wrap_size_t_small _ Rout).
  rewrite (gtb_false _ _ Hcount). cbn [panic_if].
  rewrite (bind_returned (ret tt) _ w tt w eq_refl).
  rewrite (bind_returned (spm_get_service_by_handle handle) _ w
             (Some service) w)
    by (unfold spm_get_service_by_handle; rewrite Hlive; reflexivity).
  rewrite (bind_returned (ret service) _ w service w eq_refl).
  rewrite (bind_returned (memory_check in_vec _ ns_caller) _ w _ _ eq_refl).
  fold check_in. split.
  - intros Hbad. apply is_ipc_success_false in Hbad. rewrite Hbad.
    reflexivity.
  - intros Hok Hbad. rewrite Hok. cbn [negb is_ipc_success panic_if].
    rewrite (bind_returned (ret tt) _ _ tt _ eq_refl).
    rewrite (bind_returned (memory_check out_vec _ ns_caller) _ _ _ _
               eq_refl).
    cbn [spm record_event]. fold check_out.
    apply is_ipc_success_false in Hbad. rewrite Hbad. reflexivity.
Qed.

(** The check loop stops at the first descriptor the boundary checker
    refuses: the descriptors before it have been checked, it has been
    checked, and the call panics. *)
Lemma check_vecs_illegal ns_caller bad tl rest : forall good i n w,
  i + Z.of_nat (length good) < n ->
  vecs_legal (spm w) ns_caller good = true ->
  tfm_memory_check (spm w) (base bad) (len bad) ns_caller <> IPC_SUCCESS ->
  check_vecs ((good ++ bad :: tl) ++ rest) i n ns_caller w =
  (Panicked,
   mk_world (spm w)
            (trace w
             ++ check_events (spm w) ns_caller good
             ++ [EvMemoryCheck (base bad) (len bad) ns_caller
                   (tfm_memory_check (spm w) (base bad) (len bad)
                                     ns_caller)])
            (caller_mem w)).
Proof.
  induction good as [| v good IH]; intros i n w Hn Hlegal Hbad.
  - cbn [app check_vecs check_events map]. cbn [length] in Hn.
    rewrite (proj2 (Z.ltb_lt i n)) by lia.
    rewrite (bind_returned (memory_check (base bad) (len bad) ns_caller)
               _ w _ _ eq_refl).
    apply is_ipc_success_false in Hbad. rewrite Hbad. reflexivity.
  - cbn [app check_vecs]. cbn [length] in Hn.
    rewrite (proj2 (Z.ltb_lt i n)) by lia.
    cbn [vecs_legal forallb] in Hlegal.
    apply andb_true_iff in Hlegal as [Hv Hvs].
    rewrite (bind_returned (memory_check (base v) (len v) ns_caller)
               _ w _ _ eq_refl).
    rewrite Hv. cbn [negb panic_if].
    rewrite (bind_returned (ret tt) _ _ tt _ eq_refl).
    rewrite IH; [| cbn [spm record_event]; lia | exact Hvs | exact Hbad].
    cbn [spm trace caller_mem record_event check_events map].
    rewrite <- app_assoc. reflexivity.
Qed.

(** A buffer the boundary checker refuses stops [tfm_psa_call] at the
    first such descriptor of its local copies, inputs before outputs: the
    call panics right after that check, no message is constructed and the
    SPM state is untouched. *)
Theorem tfm_psa_call_buffer_rejected
    (handle in_vec in_len out_vec out_len ns_caller : Z) (w : world)
    (service : tfm_spm_service_t) (good tl : list psa_vec) (bad : psa_vec) :
  0 <= in_len -> 0 <= out_len -> in_len + out_len <= PSA_MAX_IOVEC ->
  tfm_spm_get_service_by_handle (spm w) handle = Some service ->
  tfm_memory_check (spm w) in_vec (in_len * sizeof_psa_vec) ns_caller
  = IPC_SUCCESS ->
  tfm_memory_check (spm w) out_vec (out_len * sizeof_psa_vec) ns_caller
  = IPC_SUCCESS ->
  vecs_legal (spm w) ns_caller good = true ->
  tfm_memory_check (spm w) (base bad) (len bad) ns_caller <> IPC_SUCCESS ->
  let refused :=
    EvMemoryCheck (base bad) (len bad) ns_caller
      (tfm_memory_check (spm w) (base bad) (len bad) ns_caller) in
  let copied := after_copies w in_vec in_len out_vec out_len ns_caller in
  (snapshot w 2 in_vec in_len = good ++ bad :: tl ->
   tfm_psa_call handle in_vec in_len out_vec out_len ns_caller w =
   (Panicked,
    mk_world (spm w)
             (trace copied ++ check_events (spm w) ns_caller good
              ++ [refused])
             (caller_mem w)))
  /\
  (vecs_legal (spm w) ns_caller (snapshot w 2 in_vec in_len) = true ->
   snapshot w 3 out_vec out_len = good ++ bad :: tl ->
   tfm_psa_call handle in_vec in_len out_vec out_len ns_caller w =
   (Panicked,
    mk_world (spm w)
             ((trace copied
               ++ check_events (spm w) ns_caller
                               (snapshot w 2 in_vec in_len))
              ++ check_events (spm w) ns_caller good ++ [refused])
             (caller_mem w))).
Proof.
  intros Hin Hout Hcount Hlive Hci Hco Hgood Hbad refused copied.
  rewrite (tfm_psa_call_copied handle in_vec in_len out_vec out_len
             ns_caller w service Hin Hout Hcount Hlive Hci Hco).
  fold copied. split.
  - intros Hsnap.
    assert (0 + Z.of_nat (length good) < in_len) as Hlen.
    { rewrite <- (snapshot_length w 2 in_vec in_len Hin), Hsnap.
      rewrite length_app. cbn [length]. lia. }
    unfold local_copy at 1. rewrite Hsnap.
    apply bind_panicked.
    apply (check_vecs_illegal ns_caller bad tl _ good 0 in_len copied
             Hlen Hgood Hbad).
  - intros Hins Hsnap.
    assert (in_len = 0 + Z.of_nat (length (snapshot w 2 in_vec in_len)))
      as Lin by (rewrite snapshot_length; lia).
    assert (0 + Z.of_nat (length good) < out_len) as Hlen.
    { rewrite <- (snapshot_length w 3 out_vec out_len Hout), Hsnap.
      rewrite length_app. cbn [length]. lia. }
    unfold local_copy at 1.
    rewrite (bind_returned (check_vecs _ _ _ _) _ copied tt _
               (check_vecs_legal ns_caller _ _ 0 in_len copied Lin Hins)).
    unfold local_copy at 1. rewrite Hsnap.
    apply bind_panicked.
    match goal with
    | |- check_vecs _ _ _ _ ?w5 = _ =>
        apply (check_vecs_illegal ns_caller bad tl _ good 0 out_len w5
                 Hlen Hgood Hbad)
    end.
Qed.

(** An exhausted message pool is fatal for [tfm_psa_call], where it is a
    status for [tfm_psa_connect]: when every check has passed and the
    message construction yields no message, the call panics and nothing is
    handed to the event path. *)
Theorem tfm_psa_call_no_message
    (handle in_vec in_len out_vec out_len ns_caller : Z) (w : world)
    (service : tfm_spm_service_t) (s1 : spm_state) :
  0 <= in_len -> 0 <= out_len -> in_len + out_len <= PSA_MAX_IOVEC ->
  tfm_spm_get_service_by_handle (spm w) handle = Some service ->
  tfm_memory_check (spm w) in_vec (in_len * sizeof_psa_vec) ns_caller
  = IPC_SUCCESS ->
  tfm_memory_check (spm w) out_vec (out_len * sizeof_psa_vec) ns_caller
  = IPC_SUCCESS ->
  vecs_legal (spm w) ns_caller (snapshot w 2 in_vec in_len) = true ->
  vecs_legal (spm w) ns_caller (snapshot w 3 out_vec out_len) = true ->
  tfm_spm_create_msg (spm w) service handle PSA_IPC_CALL ns_caller
    (Some (local_copy (snapshot w 2 in_vec in_len))) in_len
    (Some (local_copy (snapshot w 3 out_vec out_len))) out_len out_vec
  = (None, s1) ->
  tfm_psa_call handle in_vec in_len out_vec out_len ns_caller w =
  (Panicked,
   mk_world s1
     ((trace w ++ call_prefix w in_vec in_len out_vec out_len ns_caller)
      ++ [EvCreateMsg service handle PSA_IPC_CALL ns_caller
            (Some (local_copy (snapshot w 2 in_vec in_len))) in_len
            (Some (local_copy (snapshot w 3 out_vec out_len))) out_len
            out_vec None])
     (caller_mem w)).
Proof.
  intros Hin Hout Hcount Hlive Hci Hco Hli Hlo Hcreate.
  rewrite (tfm_psa_call_run handle in_vec in_len out_vec out_len ns_caller
             w service Hin Hout Hcount Hlive Hci Hco Hli Hlo).
  unfold bind, spm_create_msg, record_event, with_spm, tfm_panic.
  cbn [spm trace caller_mem]. rewrite Hcreate. reflexivity.
Qed.

(** The successful call, whole: with counts within the maximum, a live
    handle, and every boundary check passing on the arrays and on the
    copied descriptors, [tfm_psa_call] returns [PSA_SUCCESS] once the
    message is constructed and the hand-off reports [IPC_SUCCESS].  It has
    then made the two array checks, the two copies, one check per copied
    descriptor (inputs first), and constructed the message from the local
    copies with the caller's output array as back-reference. *)
Theorem tfm_psa_call_success
    (handle in_vec in_len out_vec out_len ns_caller : Z) (w : world)
    (service : tfm_spm_service_t) (msg : tfm_msg_body_t)
    (s1 s2 : spm_state) :
  0 <= in_len -> 0 <= out_len -> in_len + out_len <= PSA_MAX_IOVEC ->
  tfm_spm_get_service_by_handle (spm w) handle = Some service ->
  tfm_memory_check (spm w) in_vec (in_len * sizeof_psa_vec) ns_caller
  = IPC_SUCCESS ->
  tfm_memory_check (spm w) out_vec (out_len * sizeof_psa_vec) ns_caller
  = IPC_SUCCESS ->
  vecs_legal (spm w) ns_caller (snapshot w 2 in_vec in_len) = true ->
  vecs_legal (spm w) ns_caller (snapshot w 3 out_vec out_len) = true ->
  tfm_spm_create_msg (spm w) service handle PSA_IPC_CALL ns_caller
    (Some (local_copy (snapshot w 2 in_vec in_len))) in_len
    (Some (local_copy (snapshot w 3 out_vec out_len))) out_len out_vec
  = (Some msg, s1) ->
  tfm_spm_send_event s1 service msg = (IPC_SUCCESS, s2) ->
  tfm_psa_call handle in_vec in_len out_vec out_len ns_caller w =
  (Returned PSA_SUCCESS,
   mk_world s2
     (((trace w ++ call_prefix w in_vec in_len out_vec out_len ns_caller)
       ++ [EvCreateMsg service handle PSA_IPC_CALL ns_caller
             (Some (local_copy (snapshot w 2 in_vec in_len))) in_len
             (Some (local_copy (snapshot w 3 out_vec out_len))) out_len
             out_vec (Some msg)])
      ++ [EvSendEvent service msg IPC_SUCCESS])
     (caller_mem w)).
Proof.
  intros Hin Hout Hcount Hlive Hci Hco Hli Hlo Hcreate Hsend.
  apply (tfm_psa_call_hand_off handle in_vec in_len out_vec out_len
           ns_caller w service msg s1 s2 IPC_SUCCESS
           Hin Hout Hcount Hlive Hci Hco Hli Hlo Hcreate Hsend).
Qed.

Lemma panic_if_passed st (u : unit) (w w' : world) :
  panic_if (negb (is_ipc_success st)) w = (Returned u, w') ->
  st = IPC_SUCCESS /\ w' = w.
Proof.
  intros H. apply panic_if_returned in H as [Hst ->].
  destruct st; [auto | discriminate Hst].
Qed.

(** A check loop that returns has made only checks that passed. *)
Lemma check_vecs_returned ns_caller rest : forall i n w (u : unit) w',
  check_vecs rest i n ns_caller w = (Returned u, w') ->
  exists evs,
    Forall passed evs
    /\ w' = mk_world (spm w) (trace w ++ evs) (caller_mem w).
Proof.
  induction rest as [| v rest IH]; intros i n w u w' H; cbn [check_vecs] in H.
  - destruct (i <? n); [discriminate H |].
    assert (w' = w) as -> by (cbv in H; congruence).
    exists []. split; [constructor |].
    rewrite app_nil_r. destruct w; reflexivity.
  - destruct (i <? n).
    2: { assert (w' = w) as -> by (cbv in H; congruence).
         exists []. split; [constructor |].
         rewrite app_nil_r. destruct w; reflexivity. }
    apply bind_returned_inv in H as (st & w1 & E1 & H).
    unfold memory_check in E1. injection E1 as <- <-.
    apply bind_returned_inv in H as (u1 & w2 & E2 & H).
    apply panic_if_passed in E2 as [Hst ->].
    apply IH in H as (evs & Hevs & ->).
    exists (EvMemoryCheck (base v) (len v) ns_caller
              (tfm_memory_check (spm w) (base v) (len v) ns_caller) :: evs).
    split.
    + constructor; [exact Hst | exact Hevs].
    + cbn [spm trace caller_mem record_event].
      rewrite <- app_assoc. reflexivity.
Qed.

(** Whatever its arguments, [tfm_psa_call] returns only [PSA_SUCCESS], and
    only at the end of a run in which every boundary check it made has
    passed, a message has been constructed, and the hand-off of that
    message, its last action, has reported [IPC_SUCCESS]. *)
Theorem tfm_psa_call_returns_after_validation
    (handle in_vec in_len out_vec out_len ns_caller : Z) (w w' : world)
    (r : psa_status_t) :
  tfm_psa_call handle in_vec in_len out_vec out_len ns_caller w
  = (Returned r, w') ->
  r = PSA_SUCCESS
  /\ exists evs service invecs outvecs msg,
      Forall passed evs
      /\ tfm_spm_get_service_by_handle (spm w) handle = Some service
      /\ trace w' =
         (trace w ++ evs)
         ++ [EvCreateMsg service handle PSA_IPC_CALL ns_caller
                         (Some invecs) in_len (Some outvecs) out_len
                         out_vec (Some msg);
             EvSendEvent service msg IPC_SUCCESS].
Proof.
  intros H. unfold tfm_psa_call in H.
  apply bind_returned_inv in H as (u0 & w0 & E0 & H).
  apply panic_if_returned in E0 as [_ ->].
  apply bind_returned_inv in H as (found & w1 & E1 & H).
  unfold spm_get_service_by_handle in E1. injection E1 as <- <-.
  apply bind_returned_inv in H as (service & w2 & E2 & H).
  destruct (tfm_spm_get_service_by_handle (spm w) handle) as [service' |]
    eqn:Hlive; [| discriminate E2].
  injection E2 as <- <-.
  apply bind_returned_inv in H as (st1 & w3 & E3 & H).
  unfold memory_check in E3. injection E3 as <- <-.
  apply bind_returned_inv in H as (u1 & w4 & E4 & H).
  apply panic_if_passed in E4 as [Hst1 ->].
  apply bind_returned_inv in H as (st2 & w5 & E5 & H).
  unfold memory_check in E5. injection E5 as <- <-.
  apply bind_returned_inv in H as (u2 & w6 & E6 & H).
  apply panic_if_passed in E6 as [Hst2 ->].
  apply bind_returned_inv in H as (invecs & w7 & E7 & H).
  unfold tfm_memcpy in E7.
  destruct (_ >? _) in E7; [discriminate E7 |]. injection E7 as <- <-.
  apply bind_returned_inv in H as (outvecs & w8 & E8 & H).
  unfold tfm_memcpy in E8.
  destruct (_ >? _) in E8; [discriminate E8 |]. injection E8 as <- <-.
  apply bind_returned_inv in H as (u3 & w9 & E9 & H).
  apply check_vecs_returned in E9 as (evs_in & Hin & ->).
  apply bind_returned_inv in H as (u4 & w10 & E10 & H).
  apply check_vecs_returned in E10 as (evs_out & Hout & ->).
  apply bind_returned_inv in H as (created & w11 & E11 & H).
  unfold spm_create_msg in E11.
  destruct (tfm_spm_create_msg _ _ _ _ _ _ _ _ _ _) as [created' s1]
    in E11.
  injection E11 as <- <-.
  apply bind_returned_inv in H as (msg & w12 & E12 & H).
  destruct created' as [msg' |]; [| discriminate E12].
  injection E12 as <- <-.
  apply bind_returned_inv in H as (st & w13 & E13 & H).
  unfold spm_send_event in E13.
  destruct (tfm_spm_send_event _ _ _) as [st' s2] in E13.
  injection E13 as <- <-.
  apply bind_returned_inv in H as (u5 & w14 & E14 & H).
  apply panic_if_passed in E14 as [Hst ->].
  injection H as <- <-. split; [reflexivity |].
  eexists (_ :: _ :: _ :: _ :: evs_in ++ evs_out), service', _, _, msg'.
  split; [| split; [reflexivity |]].
  2: { cbn [spm trace caller_mem record_event with_spm]. rewrite Hst.
       repeat rewrite <- app_assoc. cbn [app].
       rewrite <- (app_assoc evs_in evs_out). reflexivity. }
  repeat constructor; try assumption.
  apply Forall_app. split; assumption.
Qed.

Lemma load_vecs_nth m d : forall n addr i,
  (i < n)%nat ->
  nth i (load_vecs m addr n) d
  = load_vec m (addr + sizeof_psa_vec * Z.of_nat i).
Proof.
  induction n as [| n IH]; intros addr i Hi; [lia |].
  destruct i as [| i]; cbn [load_vecs nth].
  - rewrite Z.mul_0_r, Z.add_0_r. reflexivity.
  - rewrite IH by lia. f_equal. lia.
Qed.

(** The local array after [tfm_memset] and [tfm_memcpy] of [n] descriptors,
    [n] within the maximum: it has PSA_MAX_IOVEC elements, the first [n]
    are the caller's descriptors as they are in memory at the moment of the
    copy, and every other element is zero. *)
Theorem local_array_after_copy (dst : local_array) (src n : Z) (w : world) :
  0 <= n <= PSA_MAX_IOVEC ->
  exists arr w',
    tfm_memcpy dst zeroed_vecs src (wrap_size_t (n * sizeof_psa_vec)) w
    = (Returned arr, w')
    /\ Z.of_nat (length arr) = PSA_MAX_IOVEC
    /\ (forall i, 0 <= i < n ->
          nth (Z.to_nat i) arr zero_vec
          = load_vec (caller_mem w (now w)) (src + sizeof_psa_vec * i))
    /\ (forall i, n <= i -> nth (Z.to_nat i) arr zero_vec = zero_vec).
Proof.
  intros Hn. pose proof max_iovec_fits as [H0 H1].
  rewrite wrap_size_t_small by (unfold sizeof_psa_vec in *; lia).
  rewrite tfm_memcpy_in_bounds by exact Hn.
  eexists _, _. split; [reflexivity |].
  assert (length (snapshot w 0 src n) = Z.to_nat n) as Hlen
    by (unfold snapshot; apply load_vecs_length).
  pose proof zeroed_vecs_length as HZ.
  split; [| split].
  - rewrite local_copy_length; [exact HZ | lia].
  - intros i Hi. unfold local_copy.
    rewrite app_nth1 by lia.
    unfold snapshot. rewrite Nat.add_0_r, load_vecs_nth by lia.
    rewrite Z2Nat.id by lia. reflexivity.
  - intros i Hi. unfold local_copy.
    rewrite app_nth2 by lia. rewrite Hlen.
    rewrite nth_skipn. unfold zeroed_vecs. apply nth_repeat.
Qed.

End CallPaths.

(* ================================================================= *)
(** ** The slot over time, and the calls through it *)

Lemma ops_eta ops : mk_ops (handle_req ops) (reply ops) = ops.
Proof. destruct ops; reflexivity. Qed.

(** One request leaves in the slot the default pair, the pair it held, or
    the pair of the request. *)
Lemma slot_step_ops s r :
  slot_ops (slot_step s r) = default_rpc_ops
  \/ slot_ops (slot_step s r) = slot_ops s
  \/ exists ops, r = RequestRegister (Some ops)
                 /\ slot_ops (slot_step s r) = ops.
Proof.
  destruct r as [[ops |] |]; cbn [slot_step].
  - unfold tfm_rpc_register_ops.
    destruct (is_null (handle_req ops) || is_null (reply ops));
      [right; left; reflexivity |].
    destruct (negb _ || negb _); [right; left; reflexivity |].
    right; right. exists ops. split; [reflexivity |]. apply ops_eta.
  - right; left. reflexivity.
  - left. reflexivity.
Qed.

Lemma slot_run_ops rs : forall s,
  slot_ops (slot_run rs s) = default_rpc_ops
  \/ slot_ops (slot_run rs s) = slot_ops s
  \/ exists ops, In (RequestRegister (Some ops)) rs
                 /\ slot_ops (slot_run rs s) = ops.
Proof.
  induction rs as [| r rs IH]; intros s; cbn [slot_run fold_left].
  - right; left. reflexivity.
  - destruct (IH (slot_step s r)) as [H | [H | (ops & Hin & H)]].
    + left. exact H.
    + unfold slot_run in H. rewrite H.
      destruct (slot_step_ops s r) as [H' | [H' | (ops & -> & H')]].
      * left. exact H'.
      * right; left. exact H'.
      * right; right. exists ops. split; [left; reflexivity | exact H'].
    + right; right. exists ops. split; [right; exact Hin | exact H].
Qed.

(** The two handlers in the slot always come from one place: after any
    sequence of register and unregister requests the slot holds the
    default pair or the pair of one registration request of the sequence,
    never a handler of one with a handler of another. *)
Theorem slot_holds_one_pair (rs : list slot_request) :
  slot_ops (slot_run rs initial_slot) = default_rpc_ops
  \/ exists ops, In (RequestRegister (Some ops)) rs
                 /\ slot_ops (slot_run rs initial_slot) = ops.
Proof.
  destruct (slot_run_ops rs initial_slot) as [H | [H | H]].
  - left. exact H.
  - left. exact H.
  - right. exact H.
Qed.

Lemma is_null_spec {A} (p : option A) : is_null p = false <-> p <> None.
Proof. destruct p; cbn; split; congruence. Qed.

Lemma slot_step_present s r :
  handlers_present (slot_ops s) -> handlers_present (slot_ops (slot_step s r)).
Proof.
  intros Hs. destruct r as [[ops |] |]; cbn [slot_step].
  - unfold tfm_rpc_register_ops.
    destruct (is_null (handle_req ops) || is_null (reply ops)) eqn:E;
      [exact Hs |].
    destruct (negb _ || negb _); [exact Hs |].
    apply orb_false_iff in E as [Eh Er].
    split; cbn; apply is_null_spec; assumption.
  - exact Hs.
  - split; discriminate.
Qed.

Lemma slot_run_present rs : forall s,
  handlers_present (slot_ops s) -> handlers_present (slot_ops (slot_run rs s)).
Proof.
  induction rs as [| r rs IH]; intros s Hs; cbn; [exact Hs |].
  apply IH, slot_step_present, Hs.
Qed.

(** The two call-throughs never call a null pointer: after any sequence of
    register and unregister requests, from the initial slot, both
    [tfm_rpc_client_call_handler] and [tfm_rpc_client_call_reply] find a
    handler to call. *)
Theorem call_through_never_null
    (transport : Type) (run_handle_req : Z -> transport -> transport)
    (run_reply : Z -> Z -> Z -> transport -> transport)
    (rs : list slot_request) (owner ret : Z) (t : transport) :
  tfm_rpc_client_call_handler transport run_handle_req
    (slot_ops (slot_run rs initial_slot)) t <> None
  /\ tfm_rpc_client_call_reply transport run_reply
       (slot_ops (slot_run rs initial_slot)) owner ret t <> None.
Proof.
  destruct (slot_run_present rs initial_slot) as [Hh Hr].
  { split; discriminate. }
  unfold tfm_rpc_client_call_handler, tfm_rpc_client_call_reply.
  destruct (handle_req (slot_ops (slot_run rs initial_slot)));
    [| contradiction].
  destruct (reply (slot_ops (slot_run rs initial_slot)));
    [| contradiction].
  split; discriminate.
Qed.

Lemma only_registers_keep ops rs : forall s,
  slot_ops s = ops -> ops <> default_rpc_ops ->
  only_registers rs = true ->
  slot_ops (slot_run rs s) = ops.
Proof.
  induction rs as [| r rs IH]; intros s Hs Hbound Hrs; cbn; [exact Hs |].
  cbn [only_registers forallb] in Hrs.
  apply andb_true_iff in Hrs as [Hr Hrs].
  apply IH; [| exact Hbound | exact Hrs].
  destruct r as [ops_ptr |]; [| discriminate Hr]. cbn [slot_step].
  unfold tfm_rpc_register_ops.
  destruct ops_ptr as [ops' |]; [| exact Hs].
  destruct (is_null (handle_req ops') || is_null (reply ops')); [exact Hs |].
  rewrite conflict_test.
  destruct (ops_eqb (slot_ops s) default_rpc_ops) eqn:E; [| exact Hs].
  apply ops_eqb_eq in E. congruence.
Qed.

(** The first registration wins: once a pair of present handlers other
    than the default pair is registered on the initial slot, the slot
    holds that pair through any number of further registration requests,
    whatever they ask for, and the call-through for requests runs its
    request handler. *)
Theorem first_registration_wins
    (transport : Type) (run_handle_req : Z -> transport -> transport)
    (ops : tfm_rpc_ops_t) (rs : list slot_request) (t : transport) :
  handle_req ops <> None -> reply ops <> None ->
  ops <> default_rpc_ops ->
  only_registers rs = true ->
  slot_ops (slot_run (RequestRegister (Some ops) :: rs) initial_slot) = ops
  /\ tfm_rpc_client_call_handler transport run_handle_req
       (slot_ops (slot_run (RequestRegister (Some ops) :: rs) initial_slot))
       t
     = tfm_rpc_client_call_handler transport run_handle_req ops t.
Proof.
  intros Hh Hr Hbound Hrs.
  assert (slot_ops (slot_run (RequestRegister (Some ops) :: rs) initial_slot)
          = ops) as Hslot.
  { cbn [slot_run fold_left]. apply only_registers_keep;
      [| exact Hbound | exact Hrs].
    cbn [slot_step initial_slot slot_ops].
    rewrite (register_on_default ops Hh Hr). cbv beta iota.
    cbn [slot_ops]. apply ops_eta. }
  split; [exact Hslot | rewrite Hslot; reflexivity].
Qed.

(* ================================================================= *)
(** ** The non-secure thread entry *)

(** [tfm_nspm_thread_entry] never returns: whatever the platform calls
    answer, no run of it reaches the final [return PSA_SUCCESS]. *)
Theorem tfm_nspm_thread_entry_never_returns (r : psa_status_t) :
  ~ Leaf r tfm_nspm_thread_entry.
Proof.
  intros H. unfold tfm_nspm_thread_entry in H.
  apply Leaf_bind_inv in H as (vtor & _ & H).
  apply Leaf_bind_inv in H as (u1 & _ & H).
  apply Leaf_bind_inv in H as (u2 & _ & H).
  apply Leaf_bind_inv in H as (status & _ & H).
  apply Leaf_bind_inv in H as (u3 & Hpark & _).
  revert Hpark. unfold park.
  apply (Leaf_iter_inv (fun _ : unit => Ret (inl tt)) tt
           (fun _ => True) (fun _ => False)); [| exact I].
  intros i s _ Hs. apply Leaf_Ret_inv in Hs. subst s. exact I.
Qed.

(* ================================================================= *)
(** ** What tfm_psa_call reads of the caller's memory *)

Section DescriptorsOnly.

Context {P : Platform}.

Lemma load_vecs_ext_range (m1 m2 : memory) : forall n addr,
  (forall a, addr <= a < addr + sizeof_psa_vec * Z.of_nat n ->
             m1 a = m2 a) ->
  load_vecs m1 addr n = load_vecs m2 addr n.
Proof.
  unfold sizeof_psa_vec.
  induction n as [| n IH]; intros addr Hm; cbn [load_vecs];
    [reflexivity |].
  unfold load_vec, sizeof_psa_vec.
  rewrite (Hm addr) by lia. rewrite (Hm (addr + 4)) by lia.
  rewrite IH; [reflexivity |]. intros a Ha. apply Hm. lia.
Qed.

(** A copy reads the words of the source range, at the moment of the
    copy, and nothing else. *)
Lemma same_run_memcpy_range m w dst arr src nbytes :
  0 <= nbytes ->
  (forall a, src <= a < src + nbytes ->
             m (now w) a = caller_mem w (now w) a) ->
  same_run m w (tfm_memcpy dst arr src nbytes).
Proof.
  intros Hn Hm. unfold same_run, tfm_memcpy.
  destruct (nbytes >? sizeof_psa_vec * Z.of_nat (length arr));
    [reflexivity |].
  unfold now, set_mem. cbn [trace caller_mem fst snd spm record_event].
  rewrite (load_vecs_ext_range (m (length (trace w)))
             (caller_mem w (length (trace w)))); [reflexivity |].
  intros a Ha. apply Hm. unfold now.
  rewrite Z2Nat.id in Ha
    by (apply Z.div_pos; [exact Hn | unfold sizeof_psa_vec; lia]).
  pose proof (Z.mul_div_le nbytes sizeof_psa_vec
                ltac:(unfold sizeof_psa_vec; lia)).
  lia.
Qed.

Lemma wrap_size_t_nonneg z : 0 <= wrap_size_t z.
Proof.
  unfold wrap_size_t. apply Z.mod_pos_bound. reflexivity.
Qed.

Lemma tfm_psa_call_same_run_range
    (handle in_vec in_len out_vec out_len ns_caller : Z)
    (m : nat -> memory) (w : world) :
  (forall a,
      in_vec <= a < in_vec + wrap_size_t (in_len * sizeof_psa_vec) ->
      m (now w + 2)%nat a = caller_mem w (now w + 2)%nat a) ->
  (forall a,
      out_vec <= a < out_vec + wrap_size_t (out_len * sizeof_psa_vec) ->
      m (now w + 3)%nat a = caller_mem w (now w + 3)%nat a) ->
  same_run m w (tfm_psa_call handle in_vec in_len out_vec out_len ns_caller).
Proof.
  intros Hm_in Hm_out. unfold tfm_psa_call.
  apply same_run_bind; [apply blind_panic_if |].
  intros u0 w0 E0. apply panic_if_returned in E0 as [_ ->].
  apply same_run_bind; [apply blind_get_service_by_handle |].
  intros service w1 E1.
  assert (w1 = w) as Ew by (cbv in E1; congruence). subst w1.
  apply same_run_bind;
    [destruct service; [apply blind_ret | apply blind_panic] |].
  intros service' w2 E2.
  assert (w2 = w) as Ew by (destruct service; cbv in E2; congruence).
  subst w2.
  apply same_run_bind; [apply blind_memory_check |].
  intros st1 w3 E3.
  assert (now w3 = S (now w) /\ caller_mem w3 = caller_mem w) as [N3 C3].
  { unfold memory_check in E3. inversion E3.
    split; [apply now_record_event | reflexivity]. }
  apply same_run_bind; [apply blind_panic_if |].
  intros u4 w4 E4. apply panic_if_returned in E4 as [_ ->].
  apply same_run_bind; [apply blind_memory_check |].
  intros st2 w5 E5.
  assert (now w5 = (now w + 2)%nat /\ caller_mem w5 = caller_mem w)
    as [N5 C5].
  { unfold memory_check in E5. inversion E5.
    rewrite now_record_event. split; [lia | exact C3]. }
  apply same_run_bind; [apply blind_panic_if |].
  intros u6 w6 E6. apply panic_if_returned in E6 as [_ ->].
  apply same_run_bind.
  { apply same_run_memcpy_range; [apply wrap_size_t_nonneg |].
    intros a Ha. rewrite N5, C5. apply Hm_in. exact Ha. }
  intros invecs w7 E7.
  assert (now w7 = (now w + 3)%nat /\ caller_mem w7 = caller_mem w)
    as [N7 C7].
  { unfold tfm_memcpy in E7. destruct (_ >? _); [discriminate |].
    inversion E7. rewrite now_record_event. cbn. split; [lia | exact C5]. }
  apply same_run_bind.
  { apply same_run_memcpy_range; [apply wrap_size_t_nonneg |].
    intros a Ha. rewrite N7, C7. apply Hm_out. exact Ha. }
  intros outvecs w8 _.
  apply blind_after_copy.
Qed.

(** Of the caller's memory [tfm_psa_call] reads the two descriptor arrays
    and nothing else, each once, at the moment it copies it: two runs from
    the same SPM state whose memories hold the same input descriptor array
    at the first copy and the same output descriptor array at the second
    end the same way and perform the same actions, however the buffers and
    the rest of the memory differ, at any moment. *)
Theorem tfm_psa_call_reads_descriptors_only
    (handle in_vec in_len out_vec out_len ns_caller : Z) (w1 w2 : world) :
  spm w1 = spm w2 ->
  trace w1 = trace w2 ->
  (forall a,
      in_vec <= a < in_vec + wrap_size_t (in_len * sizeof_psa_vec) ->
      caller_mem w1 (now w1 + 2)%nat a = caller_mem w2 (now w1 + 2)%nat a) ->
  (forall a,
      out_vec <= a < out_vec + wrap_size_t (out_len * sizeof_psa_vec) ->
      caller_mem w1 (now w1 + 3)%nat a = caller_mem w2 (now w1 + 3)%nat a) ->
  observable (tfm_psa_call handle in_vec in_len out_vec out_len ns_caller w1)
  = observable (tfm_psa_call handle in_vec in_len out_vec out_len ns_caller w2).
Proof.
  intros Hs Ht Hin Hout.
  assert (w2 = set_mem (caller_mem w2) w1) as ->.
  { destruct w1, w2; cbn in *; subst; reflexivity. }
  rewrite (tfm_psa_call_same_run_range handle in_vec in_len out_vec out_len
             ns_caller (caller_mem (set_mem (caller_mem w2) w1)) w1).
  - reflexivity.
  - intros a Ha. symmetry. apply Hin. exact Ha.
  - intros a Ha. symmetry. apply Hout. exact Ha.
Qed.

End DescriptorsOnly.

(* ================================================================= *)
(** ** tfm_psa_call works on its own copy *)

Section LocalCopy.

Context {P : Platform}.

Lemma vecs_legal_app s ns_caller vs1 vs2 :
  vecs_legal s ns_caller (vs1 ++ vs2)
  = vecs_legal s ns_caller vs1 && vecs_legal s ns_caller vs2.
Proof. apply forallb_app. Qed.

Lemma check_events_app s ns_caller vs1 vs2 :
  check_events s ns_caller (vs1 ++ vs2)
  = check_events s ns_caller vs1 ++ check_events s ns_caller vs2.
Proof. apply map_app. Qed.

Lemma checked_until_refused_app s ns_caller vs1 vs2 :
  checked_until_refused s ns_caller (vs1 ++ vs2)
  = if vecs_legal s ns_caller vs1
    then vs1 ++ checked_until_refused s ns_caller vs2
    else checked_until_refused s ns_caller vs1.
Proof.
  induction vs1 as [| v vs1 IH]; [reflexivity |].
  cbn [app checked_until_refused vecs_legal forallb]. rewrite IH.
  destruct (is_ipc_success (tfm_memory_check s (base v) (len v) ns_caller));
    cbn [andb]; [| reflexivity].
  fold (vecs_legal s ns_caller vs1).
  destruct (vecs_legal s ns_caller vs1); reflexivity.
Qed.

Lemma checked_until_refused_legal s ns_caller vs :
  vecs_legal s ns_caller vs = true ->
  checked_until_refused s ns_caller vs = vs.
Proof.
  induction vs as [| v vs IH]; [reflexivity |].
  cbn [checked_until_refused vecs_legal forallb]. intros H.
  apply andb_true_iff in H as [Hv Hvs]. rewrite Hv, (IH Hvs). reflexivity.
Qed.

(** A check loop over the first elements of an array checks them in order
    up to the first one refused, returns when none is refused and panics
    otherwise. *)
Lemma check_vecs_checked ns_caller rest : forall vs i n w,
  n = i + Z.of_nat (length vs) ->
  check_vecs (vs ++ rest) i n ns_caller w =
  (if vecs_legal (spm w) ns_caller vs then Returned tt else Panicked,
   mk_world (spm w)
            (trace w
             ++ check_events (spm w) ns_caller
                  (checked_until_refused (spm w) ns_caller vs))
            (caller_mem w)).
Proof.
  induction vs as [| v vs IH]; intros i n w Hn.
  - rewrite (check_vecs_legal ns_caller rest [] i n w Hn eq_refl).
    reflexivity.
  - cbn [app check_vecs]. cbn [length] in Hn.
    rewrite (proj2 (Z.ltb_lt i n)) by lia.
    rewrite (bind_returned (memory_check (base v) (len v) ns_caller)
               _ w _ _ eq_refl).
    cbn [vecs_legal forallb checked_until_refused check_events map].
    destruct (is_ipc_success
                (tfm_memory_check (spm w) (base v) (len v) ns_caller))
      eqn:Hv; cbn [negb panic_if andb].
    + rewrite (bind_returned (ret tt) _ _ tt _ eq_refl).
      rewrite IH by (cbn [spm record_event]; lia).
      cbn [spm trace caller_mem record_event].
      rewrite <- app_assoc. reflexivity.
    + reflexivity.
Qed.

(** A check loop that returns has checked exactly the elements below its
    bound, and all of them passed. *)
Lemma check_vecs_returned_exact ns_caller rest : forall i n w (u : unit) w',
  check_vecs rest i n ns_caller w = (Returned u, w') ->
  vecs_legal (spm w) ns_caller (firstn (Z.to_nat (n - i)) rest) = true
  /\ w' = mk_world (spm w)
                   (trace w
                    ++ check_events (spm w) ns_caller
                         (firstn (Z.to_nat (n - i)) rest))
                   (caller_mem w).
Proof.
  induction rest as [| v rest IH]; intros i n w u w' H; cbn [check_vecs] in H.
  - rewrite firstn_nil. cbn [check_events map vecs_legal forallb].
    rewrite app_nil_r. destruct (i <? n); [discriminate H |].
    assert (w' = w) as -> by (cbv in H; congruence).
    split; [reflexivity | destruct w; reflexivity].
  - destruct (Z.ltb_spec i n) as [Hlt | Hge].
    2: { replace (Z.to_nat (n - i)) with 0%nat by lia.
         cbn [firstn check_events map vecs_legal forallb].
         rewrite app_nil_r.
         assert (w' = w) as -> by (cbv in H; congruence).
         split; [reflexivity | destruct w; reflexivity]. }
    replace (Z.to_nat (n - i)) with (S (Z.to_nat (n - (i + 1)))) by lia.
    cbn [firstn check_events map vecs_legal forallb].
    apply bind_returned_inv in H as (st & w1 & E1 & H).
    unfold memory_check in E1. injection E1 as <- <-.
    apply bind_returned_inv in H as (u1 & w2 & E2 & H).
    apply panic_if_passed in E2 as [Hst ->].
    apply IH in H as [Hlegal ->].
    cbn [spm trace caller_mem record_event] in *.
    rewrite Hst. cbn [is_ipc_success andb].
    split; [exact Hlegal |].
    rewrite <- app_assoc. reflexivity.
Qed.

(** C1. [tfm_psa_call] validates and forwards its own copy of the
    caller's descriptors.

    (1) Two runs on the same arguments from the same SPM state, whose
    caller memories hold the same input descriptor array at the moment of
    the first copy and the same output descriptor array at the moment of
    the second, end the same way, leave the same SPM state and perform the
    same actions, however the caller rewrites its memory (the descriptor
    arrays included) at any other moment.

    (2) With counts within PSA_MAX_IOVEC, a live handle and both
    descriptor arrays passing their boundary check, both arrays are copied
    before any buffer is checked; the buffers checked are those of the
    copied descriptors, inputs then outputs, up to the first one refused;
    if one is refused the call panics, and otherwise the message is
    constructed from the zero-padded copies, the very descriptors that were
    checked.

    (3) Whatever the arguments, a call that returns has handed over a
    message constructed from the two local arrays as the two copies filled
    them, after checking the first [in_len] elements of the one and the
    first [out_len] elements of the other, all of which passed. *)
Theorem tfm_psa_call_uses_local_copy :
  (forall handle in_vec in_len out_vec out_len ns_caller (w1 w2 : world),
      spm w1 = spm w2 ->
      trace w1 = trace w2 ->
      (forall a,
          in_vec <= a < in_vec + wrap_size_t (in_len * sizeof_psa_vec) ->
          caller_mem w1 (now w1 + 2)%nat a
          = caller_mem w2 (now w1 + 2)%nat a) ->
      (forall a,
          out_vec <= a < out_vec + wrap_size_t (out_len * sizeof_psa_vec) ->
          caller_mem w1 (now w1 + 3)%nat a
          = caller_mem w2 (now w1 + 3)%nat a) ->
      observable
        (tfm_psa_call handle in_vec in_len out_vec out_len ns_caller w1)
      = observable
          (tfm_psa_call handle in_vec in_len out_vec out_len ns_caller w2))
  /\
  (forall handle in_vec in_len out_vec out_len ns_caller (w : world)
          service,
      0 <= in_len -> 0 <= out_len -> in_len + out_len <= PSA_MAX_IOVEC ->
      tfm_spm_get_service_by_handle (spm w) handle = Some service ->
      tfm_memory_check (spm w) in_vec (in_len * sizeof_psa_vec) ns_caller
      = IPC_SUCCESS ->
      tfm_memory_check (spm w) out_vec (out_len * sizeof_psa_vec) ns_caller
      = IPC_SUCCESS ->
      let ins := snapshot w 2 in_vec in_len in
      let outs := snapshot w 3 out_vec out_len in
      let validated :=
        trace (after_copies w in_vec in_len out_vec out_len ns_caller)
        ++ check_events (spm w) ns_caller
             (checked_until_refused (spm w) ns_caller (ins ++ outs)) in
      let construction :=
        EvCreateMsg service handle PSA_IPC_CALL ns_caller
                    (Some (local_copy ins)) in_len
                    (Some (local_copy outs)) out_len out_vec in
      tfm_psa_call handle in_vec in_len out_vec out_len ns_caller w =
      if vecs_legal (spm w) ns_caller (ins ++ outs) then
        match tfm_spm_create_msg (spm w) service handle PSA_IPC_CALL
                ns_caller (Some (local_copy ins)) in_len
                (Some (local_copy outs)) out_len out_vec with
        | (None, s1) =>
            (Panicked,
             mk_world s1 (validated ++ [construction None]) (caller_mem w))
        | (Some msg, s1) =>
            (match fst (tfm_spm_send_event s1 service msg) with
             | IPC_SUCCESS => Returned PSA_SUCCESS
             | IPC_ERROR _ => Panicked
             end,
             mk_world (snd (tfm_spm_send_event s1 service msg))
                      ((validated ++ [construction (Some msg)])
                       ++ [EvSendEvent service msg
                             (fst (tfm_spm_send_event s1 service msg))])
                      (caller_mem w))
        end
      else
        (Panicked, mk_world (spm w) validated (caller_mem w)))
  /\
  (forall handle in_vec in_len out_vec out_len ns_caller (w w' : world) r,
      tfm_psa_call handle in_vec in_len out_vec out_len ns_caller w
      = (Returned r, w') ->
      let invecs := local_copy (copied_from w 2 in_vec in_len) in
      let outvecs := local_copy (copied_from w 3 out_vec out_len) in
      let checked_in := firstn (Z.to_nat in_len) invecs in
      let checked_out := firstn (Z.to_nat out_len) outvecs in
      exists service msg,
        tfm_spm_get_service_by_handle (spm w) handle = Some service
        /\ vecs_legal (spm w) ns_caller checked_in = true
        /\ vecs_legal (spm w) ns_caller checked_out = true
        /\ trace w' =
           trace w
           ++ [EvMemoryCheck in_vec (wrap_size_t (in_len * sizeof_psa_vec))
                             ns_caller IPC_SUCCESS;
               EvMemoryCheck out_vec
                             (wrap_size_t (out_len * sizeof_psa_vec))
                             ns_caller IPC_SUCCESS;
               EvMemcpy Invecs in_vec
                        (wrap_size_t (in_len * sizeof_psa_vec))
                        (copied_from w 2 in_vec in_len);
               EvMemcpy Outvecs out_vec
                        (wrap_size_t (out_len * sizeof_psa_vec))
                        (copied_from w 3 out_vec out_len)]
           ++ check_events (spm w) ns_caller checked_in
           ++ check_events (spm w) ns_caller checked_out
           ++ [EvCreateMsg service handle PSA_IPC_CALL ns_caller
                           (Some invecs) in_len (Some outvecs) out_len
                           out_vec (Some msg);
               EvSendEvent service msg IPC_SUCCESS]).
Proof.
  split; [| split].
  - intros handle in_vec in_len out_vec out_len ns_caller w1 w2
           Hs Ht Hin Hout.
    assert (w2 = set_mem (caller_mem w2) w1) as ->.
    { destruct w1, w2; cbn in *; subst; reflexivity. }
    rewrite (tfm_psa_call_same_run_range handle in_vec in_len out_vec
               out_len ns_caller (caller_mem (set_mem (caller_mem w2) w1))
               w1).
    + reflexivity.
    + intros a Ha. symmetry. apply Hin. exact Ha.
    + intros a Ha. symmetry. apply Hout. exact Ha.
  - intros handle in_vec in_len out_vec out_len ns_caller w service
           Hin Hout Hcount Hlive Hci Hco ins outs validated construction.
    rewrite (tfm_psa_call_copied handle in_vec in_len out_vec out_len
               ns_caller w service Hin Hout Hcount Hlive Hci Hco).
    fold ins outs.
    set (copied := after_copies w in_vec in_len out_vec out_len ns_caller)
      in *.
    assert (in_len = 0 + Z.of_nat (length ins)) as Lin
      by (unfold ins; rewrite snapshot_length; lia).
    assert (out_len = 0 + Z.of_nat (length outs)) as Lout
      by (unfold outs; rewrite snapshot_length; lia).
    subst validated.
    rewrite vecs_legal_app, checked_until_refused_app.
    unfold local_copy at 1.
    pose proof (check_vecs_checked ns_caller
                  (skipn (length ins) zeroed_vecs) ins 0 in_len copied Lin)
      as Hloop_in.
    change (spm copied) with (spm w) in Hloop_in.
    change (caller_mem copied) with (caller_mem w) in Hloop_in.
    destruct (vecs_legal (spm w) ns_caller ins) eqn:Hlegal_in.
    2: { cbn [andb]. apply bind_panicked. exact Hloop_in. }
    rewrite (bind_returned (check_vecs _ _ _ _) _ copied tt _ Hloop_in).
    rewrite (checked_until_refused_legal _ _ _ Hlegal_in) in *.
    cbn [andb]. unfold local_copy at 1.
    match goal with
    | |- bind (check_vecs _ _ _ _) _ ?w5 = _ =>
        pose proof (check_vecs_checked ns_caller
                      (skipn (length outs) zeroed_vecs) outs 0 out_len w5
                      Lout) as Hloop_out
    end.
    cbn [spm trace caller_mem] in Hloop_out.
    rewrite check_events_app, app_assoc.
    destruct (vecs_legal (spm w) ns_caller outs) eqn:Hlegal_out.
    2: { apply bind_panicked. rewrite Hloop_out, <- !app_assoc.
         reflexivity. }
    rewrite (bind_returned (check_vecs _ _ _ _) _ _ tt _ Hloop_out).
    rewrite (checked_until_refused_legal _ _ _ Hlegal_out).
    unfold bind, spm_create_msg, spm_send_event, ret, tfm_panic,
      record_event, with_spm.
    cbn [spm trace caller_mem].
    destruct (tfm_spm_create_msg (spm w) service handle PSA_IPC_CALL
                ns_caller (Some (local_copy ins)) in_len
                (Some (local_copy outs)) out_len out_vec)
      as [[msg |] s1]; cbn [spm trace caller_mem].
    + destruct (tfm_spm_send_event s1 service msg) as [[| code] s2];
        cbn [fst snd is_ipc_success negb panic_if];
        rewrite <- !app_assoc; reflexivity.
    + rewrite <- !app_assoc. reflexivity.
  - intros handle in_vec in_len out_vec out_len ns_caller w w' r H
           invecs outvecs checked_in checked_out.
    unfold tfm_psa_call in H.
    apply bind_returned_inv in H as (u0 & w0 & E0 & H).
    apply panic_if_returned in E0 as [_ ->].
    apply bind_returned_inv in H as (found & w1 & E1 & H).
    unfold spm_get_service_by_handle in E1. injection E1 as <- <-.
    apply bind_returned_inv in H as (service & w2 & E2 & H).
    destruct (tfm_spm_get_service_by_handle (spm w) handle) as [service' |]
      eqn:Hlive; [| discriminate E2].
    injection E2 as <- <-.
    apply bind_returned_inv in H as (st1 & w3 & E3 & H).
    unfold memory_check in E3. injection E3 as <- <-.
    apply bind_returned_inv in H as (u1 & w4 & E4 & H).
    apply panic_if_passed in E4 as [Hst1 ->].
    apply bind_returned_inv in H as (st2 & w5 & E5 & H).
    unfold memory_check in E5. injection E5 as <- <-.
    apply bind_returned_inv in H as (u2 & w6 & E6 & H).
    apply panic_if_passed in E6 as [Hst2 ->].
    cbn [spm record_event] in Hst2.
    apply bind_returned_inv in H as (invecs' & w7 & E7 & H).
    unfold tfm_memcpy in E7.
    destruct (_ >? _) in E7; [discriminate E7 |]. injection E7 as <- <-.
    rewrite !now_record_event in H.
    replace (S (S (now w))) with (now w + 2)%nat in H by lia.
    cbn [caller_mem record_event] in H.
    fold (copied_from w 2 in_vec in_len) in H.
    fold (local_copy (copied_from w 2 in_vec in_len)) in H. fold invecs in H.
    apply bind_returned_inv in H as (outvecs' & w8 & E8 & H).
    unfold tfm_memcpy in E8.
    destruct (_ >? _) in E8; [discriminate E8 |]. injection E8 as <- <-.
    rewrite !now_record_event in H.
    replace (S (S (S (now w)))) with (now w + 3)%nat in H by lia.
    cbn [caller_mem record_event] in H.
    fold (copied_from w 3 out_vec out_len) in H.
    fold (local_copy (copied_from w 3 out_vec out_len)) in H.
    fold outvecs in H.
    apply bind_returned_inv in H as (u3 & w9 & E9 & H).
    apply check_vecs_returned_exact in E9 as [Hchecked_in ->].
    apply bind_returned_inv in H as (u4 & w10 & E10 & H).
    apply check_vecs_returned_exact in E10 as [Hchecked_out ->].
    rewrite (Z.sub_0_r in_len), (Z.sub_0_r out_len) in *.
    cbn [spm trace caller_mem record_event] in *.
    apply bind_returned_inv in H as (created & w11 & E11 & H).
    unfold spm_create_msg in E11. cbn [spm] in E11.
    destruct (tfm_spm_create_msg _ _ _ _ _ _ _ _ _ _) as [created' s1]
      in E11.
    injection E11 as <- <-.
    apply bind_returned_inv in H as (msg & w12 & E12 & H).
    destruct created' as [msg' |]; [| discriminate E12].
    injection E12 as <- <-.
    apply bind_returned_inv in H as (st & w13 & E13 & H).
    unfold spm_send_event in E13.
    destruct (tfm_spm_send_event _ _ _) as [st' s2] in E13.
    injection E13 as <- <-.
    apply bind_returned_inv in H as (u5 & w14 & E14 & H).
    apply panic_if_passed in E14 as [Hst ->].
    injection H as <- <-.
    exists service', msg'.
    split; [reflexivity |].
    split; [exact Hchecked_in |]. split; [exact Hchecked_out |].
    cbn [spm trace caller_mem record_event with_spm].
    rewrite Hst, Hst1, Hst2. repeat rewrite <- app_assoc. reflexivity.
Qed.

End LocalCopy.

(* ================================================================= *)
(** ** The properties above on the concrete platform *)

Lemma tfm_psa_connect_panics_witness :
  fst (tfm_psa_connect 42 1 1 demo_world0) = Panicked
  /\ fst (tfm_psa_connect 9 1 1 demo_world0) = Panicked
  /\ fst (tfm_psa_connect 7 99 1 demo_world0) = Panicked.
Proof.
  split; [| split].
  - apply (proj1 (tfm_psa_connect_panics 42 1 1 demo_world0)). exact I.
  - apply (proj1 (tfm_psa_connect_panics 9 1 1 demo_world0)).
    left. split; [discriminate | reflexivity].
  - apply (proj1 (tfm_psa_connect_panics 7 99 1 demo_world0)).
    right. discriminate.
Defined.

Lemma tfm_psa_version_of_connectable_witness :
  exists service,
    tfm_spm_get_service_by_sid (spm demo_world0) 7 = Some service
    /\ tfm_psa_version 7 1 demo_world0
       = (Returned (minor_version (service_db service)), demo_world0).
Proof.
  apply (tfm_psa_version_of_connectable 7 2 1 demo_world0).
  assert (fst (tfm_psa_connect 7 2 1 demo_world0) = Returned PSA_SUCCESS)
    as H by by_evaluation.
  rewrite H. discriminate.
Defined.

Lemma tfm_psa_close_panics_witness :
  fst (tfm_psa_close 6 1 demo_world0) = Panicked
  /\ fst (tfm_psa_close 5 1 (demo_world demo_spm_exhausted steady))
     <> Panicked.
Proof.
  split.
  - apply (proj1 (tfm_psa_close_panics 6 1 demo_world0)).
    split; [discriminate | reflexivity].
  - intros H.
    apply (proj1 (tfm_psa_close_panics
                    5 1 (demo_world demo_spm_exhausted steady))) in H.
    destruct H as [_ H]. discriminate H.
Defined.

Lemma tfm_psa_call_stays_in_bounds_witness :
  fst (tfm_psa_call 5 0x20000000 1 0x20000040 1 1 demo_world0) <> Undefined
  /\ fst (tfm_psa_call 5 0x20000000 3 0x20000040 2 1 demo_world0)
     <> Undefined.
Proof.
  split; apply tfm_psa_call_stays_in_bounds;
    unfold size_t_modulus; lia.
Defined.

Lemma tfm_psa_call_array_rejected_witness :
  fst (tfm_psa_call 5 0x10000000 1 0x20000040 1 1 demo_world0) = Panicked
  /\ fst (tfm_psa_call 5 0x20000000 1 0x10000000 1 1 demo_world0) = Panicked.
Proof.
  assert (0 <= 1) as H1 by lia.
  assert (1 + 1 <= @PSA_MAX_IOVEC demo_platform) as H2 by (cbn; lia).
  split.
  - rewrite (proj1 (tfm_psa_call_array_rejected
                      5 0x10000000 1 0x20000040 1 1 demo_world0 S1
                      H1 H1 H2 eq_refl)); [reflexivity |].
    discriminate.
  - rewrite (proj2 (tfm_psa_call_array_rejected
                      5 0x20000000 1 0x10000000 1 1 demo_world0 S1
                      H1 H1 H2 eq_refl)); [reflexivity | reflexivity |].
    discriminate.
Defined.

Lemma tfm_psa_call_buffer_rejected_witness :
  fst (tfm_psa_call 5 0x20000000 1 0x20000040 1 1
                    (demo_world demo_spm0 (rewritten_after 1))) = Panicked
  /\ fst (tfm_psa_call 5 0x20000000 1 0x20000040 1 1
                       (demo_world demo_spm0 (rewritten_after 2))) = Panicked.
Proof.
  assert (0 <= 1) as H1 by lia.
  assert (1 + 1 <= @PSA_MAX_IOVEC demo_platform) as H2 by (cbn; lia).
  split.
  - rewrite (proj1 (tfm_psa_call_buffer_rejected
                      5 0x20000000 1 0x20000040 1 1
                      (demo_world demo_spm0 (rewritten_after 1)) S1
                      [] [] hostile_vec
                      H1 H1 H2 eq_refl eq_refl eq_refl eq_refl
                      ltac:(discriminate)));
      reflexivity.
  - rewrite (proj2 (tfm_psa_call_buffer_rejected
                      5 0x20000000 1 0x20000040 1 1
                      (demo_world demo_spm0 (rewritten_after 2)) S1
                      [] [] hostile_vec
                      H1 H1 H2 eq_refl eq_refl eq_refl eq_refl
                      ltac:(discriminate)));
      reflexivity.
Defined.

Lemma tfm_psa_call_no_message_witness :
  fst (tfm_psa_call 5 0x20000000 1 0x20000040 1 1
                    (demo_world demo_spm_exhausted steady)) = Panicked.
Proof.
  assert (0 <= 1) as H1 by lia.
  assert (1 + 1 <= @PSA_MAX_IOVEC demo_platform) as H2 by (cbn; lia).
  rewrite (tfm_psa_call_no_message
             5 0x20000000 1 0x20000040 1 1
             (demo_world demo_spm_exhausted steady) S1 demo_spm_exhausted
             H1 H1 H2 eq_refl eq_refl eq_refl eq_refl eq_refl eq_refl).
  reflexivity.
Defined.

Lemma tfm_psa_call_success_witness :
  fst (tfm_psa_call 5 0x20000000 1 0x20000040 1 1 demo_world0)
  = Returned PSA_SUCCESS.
Proof.
  assert (0 <= 1) as H1 by lia.
  assert (1 + 1 <= @PSA_MAX_IOVEC demo_platform) as H2 by (cbn; lia).
  erewrite (tfm_psa_call_success
              5 0x20000000 1 0x20000040 1 1 demo_world0 S1 _ _ _
              H1 H1 H2 eq_refl eq_refl eq_refl eq_refl eq_refl).
  - reflexivity.
  - reflexivity.
  - reflexivity.
Defined.

Lemma tfm_psa_call_returns_after_validation_witness :
  PSA_SUCCESS = PSA_SUCCESS
  /\ exists evs service invecs outvecs msg,
      Forall passed evs
      /\ tfm_spm_get_service_by_handle (spm demo_world0) 5 = Some service
      /\ trace (snd (tfm_psa_call 5 0x20000000 1 0x20000040 1 1 demo_world0))
         = (trace demo_world0 ++ evs)
           ++ [EvCreateMsg service 5 PSA_IPC_CALL 1 (Some invecs) 1
                           (Some outvecs) 1 0x20000040 (Some msg);
               EvSendEvent service msg IPC_SUCCESS].
Proof.
  apply (tfm_psa_call_returns_after_validation
           5 0x20000000 1 0x20000040 1 1 demo_world0).
  rewrite (surjective_pairing
             (tfm_psa_call 5 0x20000000 1 0x20000040 1 1 demo_world0))
    at 1.
  apply f_equal2; [by_evaluation | reflexivity].
Defined.

Lemma local_array_after_copy_witness :
  exists arr w',
    tfm_memcpy Invecs zeroed_vecs 0x20000000
               (wrap_size_t (1 * sizeof_psa_vec)) demo_world0
    = (Returned arr, w')
    /\ Z.of_nat (length arr) = PSA_MAX_IOVEC
    /\ (forall i, 0 <= i < 1 ->
          nth (Z.to_nat i) arr zero_vec
          = load_vec (caller_mem demo_world0 (now demo_world0))
                     (0x20000000 + sizeof_psa_vec * i))
    /\ (forall i, 1 <= i -> nth (Z.to_nat i) arr zero_vec = zero_vec).
Proof.
  apply (local_array_after_copy Invecs 0x20000000 1 demo_world0).
  cbn. lia.
Defined.

Lemma tfm_psa_call_reads_descriptors_only_witness :
  observable (tfm_psa_call 5 0x20000000 1 0x20000040 1 1 demo_world0)
  = observable (tfm_psa_call 5 0x20000000 1 0x20000040 1 1
                             (demo_world demo_spm0 buffers_rewritten)).
Proof.
  apply tfm_psa_call_reads_descriptors_only.
  - reflexivity.
  - reflexivity.
  - intros a Ha.
    change (wrap_size_t (1 * sizeof_psa_vec)) with 8 in Ha.
    unfold demo_world0, demo_world, steady, buffers_rewritten.
    cbn [caller_mem].
    destruct (Z.eqb_spec a 0x20000100); [lia | reflexivity].
  - intros a Ha.
    change (wrap_size_t (1 * sizeof_psa_vec)) with 8 in Ha.
    unfold demo_world0, demo_world, steady, buffers_rewritten.
    cbn [caller_mem].
    destruct (Z.eqb_spec a 0x20000100); [lia | reflexivity].
Defined.

Lemma first_registration_wins_witness :
  slot_ops (slot_run [RequestRegister (Some mailbox_ops);
                      RequestRegister (Some other_ops);
                      RequestRegister None]
                     initial_slot) = mailbox_ops
  /\ tfm_rpc_client_call_handler (Z * Z) count_request
       (slot_ops (slot_run [RequestRegister (Some mailbox_ops);
                            RequestRegister (Some other_ops);
                            RequestRegister None]
                           initial_slot))
       (0, 0)
     = tfm_rpc_client_call_handler (Z * Z) count_request mailbox_ops (0, 0).
Proof.
  apply (first_registration_wins (Z * Z) count_request mailbox_ops
           [RequestRegister (Some other_ops); RequestRegister None] (0, 0)).
  - discriminate.
  - discriminate.
  - discriminate.
  - reflexivity.
Defined.

Lemma tfm_psa_call_uses_local_copy_witness :
  let w := demo_world demo_spm0 rewritten_behind_the_copies in
  observable (tfm_psa_call 5 0x20000000 1 0x20000040 1 1 demo_world0)
  = observable (tfm_psa_call 5 0x20000000 1 0x20000040 1 1 w)
  /\ fst (tfm_psa_call 5 0x20000000 1 0x20000040 1 1 w)
     = Returned PSA_SUCCESS.
Proof.
  cbv zeta.
  destruct (@tfm_psa_call_uses_local_copy demo_platform)
    as (Hsame & Hcopy & _).
  split.
  - apply Hsame.
    + reflexivity.
    + reflexivity.
    + intros a Ha. reflexivity.
    + intros a Ha.
      change (wrap_size_t (1 * sizeof_psa_vec)) with 8 in Ha.
      unfold demo_world0, demo_world, steady, rewritten_behind_the_copies,
        input_hostile_memory.
      cbn [caller_mem now trace length Nat.add Nat.leb].
      destruct (Z.eqb_spec a 0x20000000); [lia |].
      destruct (Z.eqb_spec a 0x20000004); [lia | reflexivity].
  - assert (0 <= 1) as H1 by lia.
    assert (1 + 1 <= @PSA_MAX_IOVEC demo_platform) as H2 by (cbn; lia).
    rewrite (Hcopy 5 0x20000000 1 0x20000040 1 1
               (demo_world demo_spm0 rewritten_behind_the_copies) S1
               H1 H1 H2 eq_refl eq_refl eq_refl).
    by_evaluation.
Defined.
